(** * A verification development for the AI search chat front end

    The repository's sources are the chat page ([frontend/app/page.tsx]),
    the catch-all API proxy ([handler]) and the layout.  This file embeds
    the page's state machine (prompt, message list, job id, the two
    EventSource streams and their listeners), the proxy handler, and the
    job registry that the specification describes, and proves the
    properties the specification states about them. *)

From Stdlib Require Import ZArith Ascii String Strings.Byte List DecimalString Lia.
From stdpp Require Import gmap strings list fin_maps.

#[local] Set Warnings "-register-all".
#[local] Open Scope Z_scope.
#[local] Open Scope string_scope.
#[local] Open Scope list_scope.

(** ** JavaScript values

    The page is dynamically typed where it touches the wire: every payload
    is the result of [JSON.parse] and is read through property access,
    string concatenation and truthiness tests.  Strings are sequences of
    code units in the range U+0000..U+00FF; numbers are the integers
    (identifiers, page numbers and percentages), together with [NaN]. *)

Module JS.

Inductive jsval : Type :=
  | JUndefined
  | JNull
  | JBool (b : bool)
  | JNum (n : Z)
  | JNaN
  | JStr (s : string)
  | JArr (items : list jsval)
  | JObj (fields : gmap string jsval).

(** A parsed JSON object: own properties by name. *)
Abbreviation obj := (gmap string jsval).

Definition num_to_string (n : Z) : string :=
  NilZero.string_of_int (Z.to_int n).

(** [ToString].  An array joins its elements with commas, [null] and
    [undefined] elements printing as the empty string. *)
Fixpoint js_to_string (v : jsval) : string :=
  match v with
  | JUndefined => "undefined"
  | JNull => "null"
  | JBool true => "true"
  | JBool false => "false"
  | JNum n => num_to_string n
  | JNaN => "NaN"
  | JStr s => s
  | JArr items =>
      (fix join (l : list jsval) : string :=
         match l with
         | [] => ""
         | x :: rest =>
             let sx := match x with
                       | JUndefined | JNull => ""
                       | _ => js_to_string x
                       end in
             match rest with
             | [] => sx
             | _ :: _ => sx +:+ "," +:+ join rest
             end
         end) items
  | JObj _ => "[object Object]"
  end.

(** [ToPrimitive]: arrays and objects become their string form. *)
Definition to_primitive (v : jsval) : jsval :=
  match v with
  | JArr _ | JObj _ => JStr (js_to_string v)
  | _ => v
  end.

(** [ToNumber] on the non-string primitives ([None] is [NaN]). *)
Definition to_number (v : jsval) : option Z :=
  match v with
  | JNull => Some 0
  | JBool true => Some 1
  | JBool false => Some 0
  | JNum n => Some n
  | _ => None
  end.

(** The binary [+]: concatenation as soon as one operand is a string,
    numeric addition otherwise. *)
Definition js_add (a b : jsval) : jsval :=
  match to_primitive a, to_primitive b with
  | JStr s, pb => JStr (s +:+ js_to_string pb)
  | pa, JStr t => JStr (js_to_string pa +:+ t)
  | pa, pb =>
      match to_number pa, to_number pb with
      | Some x, Some y => JNum (x + y)
      | _, _ => JNaN
      end
  end.

(** Truthiness, as tested by [if (!x)], [x ? a : b] and [x || y]. *)
Definition js_truthy (v : jsval) : bool :=
  match v with
  | JUndefined | JNull | JNaN => false
  | JBool b => b
  | JNum n => negb (n =? 0)%Z
  | JStr s => negb (String.eqb s "")
  | JArr _ | JObj _ => true
  end.

(** [Object.is], the comparison React applies to state values and to effect
    dependencies.  Arrays and objects are compared by reference; the ones
    compared here always come from a fresh [JSON.parse], hence differ. *)
Definition same_value (a b : jsval) : bool :=
  match a, b with
  | JUndefined, JUndefined | JNull, JNull | JNaN, JNaN => true
  | JBool x, JBool y => Bool.eqb x y
  | JNum x, JNum y => (x =? y)%Z
  | JStr x, JStr y => String.eqb x y
  | _, _ => false
  end.

(** [payload.k] on a parsed object: the property, or [undefined]. *)
Definition field (p : obj) (k : string) : jsval :=
  default JUndefined (p !! k).

(** [v.k] on an arbitrary value: a [TypeError] ([None]) on [null] and
    [undefined], the own property on an object, [undefined] elsewhere
    (none of the names the program reads is a built-in property). *)
Definition js_get (v : jsval) (k : string) : option jsval :=
  match v with
  | JUndefined | JNull => None
  | JObj p => Some (field p k)
  | _ => Some JUndefined
  end.

(** [String.prototype.trim]: white space and line terminators, which in
    the code-unit range of this model are TAB, LF, VT, FF, CR, SP, NBSP. *)
Definition is_white_space (c : ascii) : bool :=
  let n := N_of_ascii c in
  ((9 <=? n) && (n <=? 13) || (n =? 32) || (n =? 160))%N.

Fixpoint trim_start (s : string) : string :=
  match s with
  | EmptyString => EmptyString
  | String c rest => if is_white_space c then trim_start rest else s
  end.

Definition trim_end (s : string) : string :=
  String.rev (trim_start (String.rev s)).

Definition trim (s : string) : string := trim_end (trim_start s).

End JS.
Import JS.

(** ** The chat page ([frontend/app/page.tsx]) *)

Module Client.

Inductive Role : Type := user | ai | tool.

(** [type Message]: the [citations] field is optional. *)
Record Message : Type := {
  role : Role;
  text : jsval;
  citations : option (list jsval)
}.

Definition is_ai (m : Message) : bool :=
  match role m with ai => true | _ => false end.

(** Every [EventSource] the page constructs, with the stream it was opened
    on (which fixes the listeners registered on it). *)
Inductive Channel : Type := GenerateStream | UploadStream.

Record EventSource : Type := {
  url : string;
  channel : Channel;
  closed : bool
}.

(** A frame of the event stream: the event name and [e.data].  The wire
    payloads are JSON objects; [Malformed] is data on which [JSON.parse]
    throws, [NoData] a frame without data. *)
Inductive FrameData : Type :=
  | NoData
  | Malformed
  | Payload (p : obj).

Record Frame : Type := {
  event : string;
  data : FrameData
}.

Inductive ReqBody : Type :=
  | JsonBody (v : jsval)
  | FormFile (file : string).

Record Request : Type := {
  method : string;
  path : string;
  body : ReqBody
}.

(** Callbacks handed to [setTimeout], with their delay in milliseconds. *)
Inductive Timer : Type :=
  | ClearUploadProgress (ms : Z)
  | FinishUpload (ms : Z) (ev : nat).

Record UploadProgress : Type := {
  step : jsval;
  progress : jsval
}.

(** The component's state hooks and refs, the EventSources it has created,
    the cleanup the [jobId] effect last returned (the source it captured),
    the requests issued with [fetch] and the pending timers. *)
Record State : Type := {
  prompt : string;
  messages : list Message;
  jobId : jsval;
  selectedCitation : option jsval;
  uploading : bool;
  uploadProgress : option UploadProgress;
  uploadedFiles : list jsval;
  sseRef : option nat;
  uploadSseRef : option nat;
  sources : list EventSource;
  cleanup : option nat;
  requests : list Request;
  timers : list Timer
}.

Definition initial : State :=
  {| prompt := ""; messages := []; jobId := JNull;
     selectedCitation := None; uploading := false;
     uploadProgress := None; uploadedFiles := []; sseRef := None;
     uploadSseRef := None; sources := []; cleanup := None;
     requests := []; timers := [] |}.

Definition setPrompt (v : string) (st : State) : State :=
  {| prompt := v; messages := messages st; jobId := jobId st;
     selectedCitation := selectedCitation st;
     uploading := uploading st; uploadProgress := uploadProgress st;
     uploadedFiles := uploadedFiles st; sseRef := sseRef st;
     uploadSseRef := uploadSseRef st; sources := sources st;
     cleanup := cleanup st; requests := requests st; timers := timers st |}.

Definition setMessages (f : list Message -> list Message) (st : State) : State :=
  {| prompt := prompt st; messages := f (messages st); jobId := jobId st;
     selectedCitation := selectedCitation st;
     uploading := uploading st; uploadProgress := uploadProgress st;
     uploadedFiles := uploadedFiles st; sseRef := sseRef st;
     uploadSseRef := uploadSseRef st; sources := sources st;
     cleanup := cleanup st; requests := requests st; timers := timers st |}.

Definition setJobId (v : jsval) (st : State) : State :=
  {| prompt := prompt st; messages := messages st; jobId := v;
     selectedCitation := selectedCitation st;
     uploading := uploading st; uploadProgress := uploadProgress st;
     uploadedFiles := uploadedFiles st; sseRef := sseRef st;
     uploadSseRef := uploadSseRef st; sources := sources st;
     cleanup := cleanup st; requests := requests st; timers := timers st |}.

Definition setSelectedCitation (v : option jsval) (st : State) : State :=
  {| prompt := prompt st; messages := messages st; jobId := jobId st;
     selectedCitation := v;
     uploading := uploading st; uploadProgress := uploadProgress st;
     uploadedFiles := uploadedFiles st; sseRef := sseRef st;
     uploadSseRef := uploadSseRef st; sources := sources st;
     cleanup := cleanup st; requests := requests st; timers := timers st |}.

Definition setUploading (v : bool) (st : State) : State :=
  {| prompt := prompt st; messages := messages st; jobId := jobId st;
     selectedCitation := selectedCitation st;
     uploading := v; uploadProgress := uploadProgress st;
     uploadedFiles := uploadedFiles st; sseRef := sseRef st;
     uploadSseRef := uploadSseRef st; sources := sources st;
     cleanup := cleanup st; requests := requests st; timers := timers st |}.

Definition setUploadProgress (v : option UploadProgress) (st : State) : State :=
  {| prompt := prompt st; messages := messages st; jobId := jobId st;
     selectedCitation := selectedCitation st;
     uploading := uploading st; uploadProgress := v;
     uploadedFiles := uploadedFiles st; sseRef := sseRef st;
     uploadSseRef := uploadSseRef st; sources := sources st;
     cleanup := cleanup st; requests := requests st; timers := timers st |}.

Definition setUploadedFiles (f : list jsval -> list jsval) (st : State) : State :=
  {| prompt := prompt st; messages := messages st; jobId := jobId st;
     selectedCitation := selectedCitation st;
     uploading := uploading st; uploadProgress := uploadProgress st;
     uploadedFiles := f (uploadedFiles st); sseRef := sseRef st;
     uploadSseRef := uploadSseRef st; sources := sources st;
     cleanup := cleanup st; requests := requests st; timers := timers st |}.

Definition set_sseRef (v : option nat) (st : State) : State :=
  {| prompt := prompt st; messages := messages st; jobId := jobId st;
     selectedCitation := selectedCitation st;
     uploading := uploading st; uploadProgress := uploadProgress st;
     uploadedFiles := uploadedFiles st; sseRef := v;
     uploadSseRef := uploadSseRef st; sources := sources st;
     cleanup := cleanup st; requests := requests st; timers := timers st |}.

Definition set_uploadSseRef (v : option nat) (st : State) : State :=
  {| prompt := prompt st; messages := messages st; jobId := jobId st;
     selectedCitation := selectedCitation st;
     uploading := uploading st; uploadProgress := uploadProgress st;
     uploadedFiles := uploadedFiles st; sseRef := sseRef st;
     uploadSseRef := v; sources := sources st;
     cleanup := cleanup st; requests := requests st; timers := timers st |}.

Definition set_sources (f : list EventSource -> list EventSource) (st : State) : State :=
  {| prompt := prompt st; messages := messages st; jobId := jobId st;
     selectedCitation := selectedCitation st;
     uploading := uploading st; uploadProgress := uploadProgress st;
     uploadedFiles := uploadedFiles st; sseRef := sseRef st;
     uploadSseRef := uploadSseRef st; sources := f (sources st);
     cleanup := cleanup st; requests := requests st; timers := timers st |}.

Definition set_cleanup (v : option nat) (st : State) : State :=
  {| prompt := prompt st; messages := messages st; jobId := jobId st;
     selectedCitation := selectedCitation st;
     uploading := uploading st; uploadProgress := uploadProgress st;
     uploadedFiles := uploadedFiles st; sseRef := sseRef st;
     uploadSseRef := uploadSseRef st; sources := sources st;
     cleanup := v; requests := requests st; timers := timers st |}.

Definition fetch (r : Request) (st : State) : State :=
  {| prompt := prompt st; messages := messages st; jobId := jobId st;
     selectedCitation := selectedCitation st;
     uploading := uploading st; uploadProgress := uploadProgress st;
     uploadedFiles := uploadedFiles st; sseRef := sseRef st;
     uploadSseRef := uploadSseRef st; sources := sources st;
     cleanup := cleanup st; requests := requests st ++ [r];
     timers := timers st |}.

Definition setTimeout (t : Timer) (st : State) : State :=
  {| prompt := prompt st; messages := messages st; jobId := jobId st;
     selectedCitation := selectedCitation st;
     uploading := uploading st; uploadProgress := uploadProgress st;
     uploadedFiles := uploadedFiles st; sseRef := sseRef st;
     uploadSseRef := uploadSseRef st; sources := sources st;
     cleanup := cleanup st; requests := requests st;
     timers := timers st ++ [t] |}.

(** [ev.close()]. *)
Definition close (ev : nat) (st : State) : State :=
  set_sources
    (alter (fun s => {| url := url s; channel := channel s; closed := true |}) ev)
    st.

(** [new EventSource(u)]: the new source's index and the state holding it. *)
Definition new_EventSource (u : string) (c : Channel) (st : State) : nat * State :=
  (length (sources st),
   set_sources (fun l => l ++ [{| url := u; channel := c; closed := false |}]) st).

Definition is_open (ev : nat) (st : State) : bool :=
  match sources st !! ev with
  | Some s => negb (closed s)
  | None => false
  end.

(** *** The [jobId] effect

    [useEffect(..., [jobId])]: React first runs the cleanup the previous
    run returned, then the body. *)
Definition jobId_effect (st : State) : State :=
  let st := match cleanup st with
            | Some ev => set_sseRef None (close ev st)
            | None => st
            end in
  if negb (js_truthy (jobId st)) then set_cleanup None st
  else
    let st := match sseRef st with
              | Some cur => set_sseRef None (close cur st)
              | None => st
              end in
    let '(ev, st) :=
      new_EventSource ("/api/proxy/stream/" +:+ js_to_string (jobId st))
        GenerateStream st in
    set_cleanup (Some ev) (set_sseRef (Some ev) st).

(** Committing the state updates of one event handler: the effect runs
    again when its dependency [jobId] changed. *)
Definition render (before after : State) : State :=
  if same_value (jobId before) (jobId after) then after
  else jobId_effect after.

(** *** Listeners of the generation stream *)

(** The loop [for (let i = updated.length - 1; i >= 0; i--)] shared by the
    [text] and [citation] updaters, entered with [n = i + 1]: the last
    message with role ['ai'] is replaced by [f] of it and the copy is
    returned; [None] when the loop ends without returning.  The index
    stays within the list, so [updated[i]] is always defined. *)
Fixpoint update_last_ai (f : Message -> Message) (updated : list Message)
    (n : nat) : option (list Message) :=
  match n with
  | O => None
  | S i =>
      match updated !! i with
      | Some m =>
          if is_ai m then Some (<[i := f m]> updated)
          else update_last_ai f updated i
      | None => update_last_ai f updated i
      end
  end.

Definition add_chunk (payload : obj) (m : Message) : Message :=
  {| role := role m;
     text := js_add (text m) (field payload "chunk");
     citations := citations m |}.

Definition add_citation (payload : jsval) (m : Message) : Message :=
  {| role := role m;
     text := text m;
     citations := Some (default [] (citations m) ++ [payload]) |}.

Definition text_updater (payload : obj) (prev : list Message) : list Message :=
  let updated := prev in
  default prev (update_last_ai (add_chunk payload) updated (length updated)).

Definition citation_updater (payload : jsval) (prev : list Message)
    : list Message :=
  let updated := prev in
  default prev (update_last_ai (add_citation payload) updated (length updated)).

Definition tool_updater (payload : obj) (m : list Message) : list Message :=
  m ++ [{| role := tool; text := field payload "step"; citations := None |}].

Definition Listener : Type := FrameData -> State -> State.

(** [ev.addEventListener('text', ...)]. *)
Definition on_text : Listener := fun d st =>
  match d with
  | Payload payload => setMessages (text_updater payload) st
  | _ => st
  end.

(** [ev.addEventListener('tool', ...)]. *)
Definition on_tool : Listener := fun d st =>
  match d with
  | Payload payload => setMessages (tool_updater payload) st
  | _ => st
  end.

(** [ev.addEventListener('citation', ...)]. *)
Definition on_citation : Listener := fun d st =>
  match d with
  | Payload payload => setMessages (citation_updater (JObj payload)) st
  | _ => st
  end.

(** [ev.addEventListener('done', ...)]: the source is closed, the ref and
    the job id are cleared, and the page renders again. *)
Definition on_done (ev : nat) : Listener := fun _ st =>
  render st (setJobId JNull (set_sseRef None (close ev st))).

(** *** Listeners of the upload-progress stream *)

(** [ev.addEventListener('progress', ...)]. *)
Definition on_progress : Listener := fun d st =>
  match d with
  | Payload payload =>
      setUploadProgress
        (Some {| step := field payload "text";
                 progress := field payload "progress" |}) st
  | _ => st
  end.

(** [ev.addEventListener('done', ...)] of the upload stream. *)
Definition on_upload_done (ev : nat) : Listener := fun d st =>
  match d with
  | Payload payload =>
      let st := setUploadProgress
                  (Some {| step := field payload "message";
                           progress := JNum 100 |}) st in
      let st := setUploadedFiles
                  (fun prev => prev ++ [field payload "filename"]) st in
      setTimeout (FinishUpload 1500 ev) st
  | _ => st
  end.

(** [e.data ? JSON.parse(e.data).message : 'Connection lost']. *)
Definition upload_error_message (d : FrameData) : option jsval :=
  match d with
  | NoData => Some (JStr "Connection lost")
  | Malformed => None
  | Payload payload => Some (field payload "message")
  end.

(** [ev.addEventListener('error', ...)] of the upload stream. *)
Definition on_upload_error (ev : nat) : Listener := fun d st =>
  match upload_error_message d with
  | Some msg =>
      let st := setUploadProgress
                  (Some {| step := JStr ("Error: " +:+ js_to_string msg);
                           progress := JNum 0 |}) st in
      let st := setTimeout (ClearUploadProgress 3000) st in
      set_uploadSseRef None (close ev st)
  | None => st
  end.

(** The [addEventListener] registrations made on a source, in order. *)
Definition listeners (ev : nat) (c : Channel) : list (string * Listener) :=
  match c with
  | GenerateStream =>
      [("text", on_text); ("tool", on_tool); ("citation", on_citation);
       ("done", on_done ev)]
  | UploadStream =>
      [("progress", on_progress); ("done", on_upload_done ev);
       ("error", on_upload_error ev)]
  end.

Definition listener_names (c : Channel) : list string :=
  (listeners 0 c).*1.

(** Delivery of one frame on source [ev]: an open source runs, in
    registration order, the listeners registered under the frame's event
    name; a closed source dispatches nothing. *)
Definition run_listeners (ls : list (string * Listener)) (f : Frame)
    (st : State) : State :=
  fold_left
    (fun acc l => if String.eqb l.1 (event f) then l.2 (data f) acc else acc)
    ls st.

Definition dispatch (ev : nat) (f : Frame) (st : State) : State :=
  match sources st !! ev with
  | Some s =>
      if closed s then st
      else run_listeners (listeners ev (channel s)) f st
  | None => st
  end.

Definition deliver (ev : nat) (fs : list Frame) (st : State) : State :=
  fold_left (fun acc f => dispatch ev f acc) fs st.

(** *** Timers *)

Definition run_timer (t : Timer) (st : State) : State :=
  match t with
  | ClearUploadProgress _ => setUploadProgress None st
  | FinishUpload _ ev =>
      set_uploadSseRef None (close ev (setUploadProgress None st))
  end.

(** Firing the [i]-th pending timer. *)
Definition fire_timer (i : nat) (st : State) : State :=
  match timers st !! i with
  | Some t =>
      run_timer t
        {| prompt := prompt st; messages := messages st; jobId := jobId st;
           selectedCitation := selectedCitation st;
           uploading := uploading st; uploadProgress := uploadProgress st;
           uploadedFiles := uploadedFiles st; sseRef := sseRef st;
           uploadSseRef := uploadSseRef st; sources := sources st;
           cleanup := cleanup st; requests := requests st;
           timers := delete i (timers st) |}
  | None => st
  end.

(** *** [send]

    What an awaited [fetch] followed by [res.json()] yields: a rejection,
    or a reply with its [ok] flag and its body parsed as JSON ([None] when
    the body is not JSON). *)
Inductive FetchResult : Type :=
  | Rejected
  | Replied (ok : bool) (json : option jsval).

Definition generate_request (p : string) : Request :=
  {| method := "POST";
     path := "/api/proxy/generate";
     body := JsonBody (JObj {[ "prompt" := JStr p ]}) |}.

(** [send] up to its first [await]: the guard [if (!prompt.trim()) return],
    then the POST.  The result tells whether the call is suspended on the
    request. *)
Definition send_begin (st : State) : State * bool :=
  if negb (js_truthy (JStr (trim (prompt st)))) then (st, false)
  else (fetch (generate_request (prompt st)) st, true).

(** [send] after the reply, with the prompt [p] its closure captured.  A
    rejected request, a body that is not JSON and a [null] body end the
    call with an exception before any state is set. *)
Definition send_resume (p : string) (r : FetchResult) (st : State) : State :=
  match r with
  | Replied _ (Some data) =>
      match js_get data "job_id" with
      | Some job_id =>
          let st1 := setJobId job_id st in
          let st2 :=
            setMessages
              (fun m =>
                 m ++ [{| role := user; text := JStr p; citations := None |};
                       {| role := ai; text := JStr ""; citations := Some [] |}])
              st1 in
          render st (setPrompt "" st2)
      | None => st
      end
  | _ => st
  end.

(** A whole call of [send] answered by [r]. *)
Definition send (r : FetchResult) (st : State) : State :=
  let '(st1, suspended) := send_begin st in
  if suspended then send_resume (prompt st) r st1 else st1.

(** *** [handleFileUpload] *)

Definition upload_request (file : string) : Request :=
  {| method := "POST";
     path := "/api/proxy/upload_pdf";
     body := FormFile file |}.

(** The [catch] branch. *)
Definition upload_failed (st : State) : State :=
  setTimeout (ClearUploadProgress 3000)
    (setUploadProgress
       (Some {| step := JStr "Upload failed"; progress := JNum 0 |}) st).

(** The loop body from the reply up to the 100 ms pause; [Some uploadId]
    when the body goes on to open the progress stream. *)
Definition upload_reply (r : FetchResult) (st : State) : State * option jsval :=
  match r with
  | Replied true (Some data) =>
      match js_get data "upload_id" with
      | Some upload_id =>
          if js_truthy upload_id then
            let st := setUploadProgress
                        (Some {| step := JStr "Starting upload...";
                                 progress := JNum 0 |}) st in
            let st := match uploadSseRef st with
                      | Some cur => close cur st
                      | None => st
                      end in
            (st, Some upload_id)
          else (upload_failed st, None)
      | None => (upload_failed st, None)
      end
  | _ => (upload_failed st, None)
  end.

(** The loop body after the pause: the progress stream is opened. *)
Definition upload_listen (uploadId : jsval) (st : State) : State :=
  let '(ev, st) :=
    new_EventSource
      ("/api/proxy/upload_progress/" +:+ js_to_string uploadId)
      UploadStream st in
  set_uploadSseRef (Some ev) st.

Definition upload_file (file : string) (r : FetchResult) (st : State) : State :=
  let '(st, next) := upload_reply r (fetch (upload_request file) st) in
  match next with
  | Some uploadId => upload_listen uploadId st
  | None => st
  end.

(** A whole call on the selected files, each with the reply to its POST
    (the reset of the file input's value is left to the DOM). *)
Definition handleFileUpload (files : list (string * FetchResult)) (st : State)
    : State :=
  match files with
  | [] => st
  | _ :: _ =>
      setUploading false
        (fold_left (fun acc fr => upload_file fr.1 fr.2 acc) files
           (setUploading true st))
  end.

(** *** What the page renders *)

Inductive StatusLabel : Type := Streaming | Ready.

Definition statusLabel (st : State) : StatusLabel :=
  if js_truthy (jobId st) then Streaming else Ready.



(** The message the [text] and [citation] listeners look for. *)
Definition last_ai (msgs : list Message) : option Message :=
  last (filter (fun m => is_ai m = true) msgs).

(** *** Vocabulary of the properties *)

Definition not_ai (m : Message) : Prop := is_ai m = false.

(** An open source of a given channel. *)
Definition open_on (c : Channel) (ev : nat) (st : State) : Prop :=
  exists s, sources st !! ev = Some s /\ closed s = false /\ channel s = c.

(** What a frame other than [done] does to the message list. *)
Definition frame_updater (f : Frame) : list Message -> list Message :=
  match data f with
  | Payload p =>
      if String.eqb (event f) "text" then text_updater p
      else if String.eqb (event f) "tool" then tool_updater p
      else if String.eqb (event f) "citation" then citation_updater (JObj p)
      else fun m => m
  | _ => fun m => m
  end.

(** What a frame does to the last ['ai'] message. *)
Definition frame_effect (f : Frame) (m : Message) : Message :=
  match data f with
  | Payload p =>
      if String.eqb (event f) "text" then add_chunk p m
      else if String.eqb (event f) "tool" then m
      else if String.eqb (event f) "citation" then add_citation (JObj p) m
      else m
  | _ => m
  end.

(** The fragment a frame contributes to the answer, if any. *)
Definition fragment (f : Frame) : option string :=
  match data f with
  | Payload p =>
      if String.eqb (event f) "text"
      then Some (js_to_string (field p "chunk"))
      else None
  | _ => None
  end.

Definition concat_all (l : list string) : string :=
  fold_right String.append "" l.

Definition frame (name : string) (p : obj) : Frame :=
  {| event := name; data := Payload p |}.

Definition text_frame (c : string) : Frame :=
  frame "text" {[ "chunk" := JStr c ]}.

Definition citation_frame (p : obj) : Frame := frame "citation" p.

(** The frame names of the specification's Event variants. *)
Definition spec_frame_names : list string :=
  ["tool-step"; "text-chunk"; "citation"; "progress"; "done"; "error"].

Definition covers (c : Channel) (name : string) : bool :=
  existsb (String.eqb name) (listener_names c).

(** The state a completed [send] of [p], answered with job id [j], leaves
    the initial page in. *)
Definition asked (p j : string) : State :=
  send (Replied true (Some (JObj {[ "job_id" := JStr j ]})))
    (setPrompt p initial).

(** The state after one file was posted and its progress stream opened. *)
Definition uploading_state (file id : string) : State :=
  handleFileUpload
    [(file, Replied true (Some (JObj {[ "upload_id" := JStr id ]})))] initial.

(** The client reads the fragment of a text frame from field [k]: on an
    open generation stream, the frame extends the text of the most recent
    AI message by that field of its payload. *)
Definition reads_fragment_from (k : string) : Prop :=
  forall (ev : nat) (st : State) (m : Message) (t : string) (p : obj),
    open_on GenerateStream ev st ->
    last_ai (messages st) = Some m ->
    text m = JStr t ->
    text <$> last_ai (messages (dispatch ev (frame "text" p) st))
    = Some (JStr (t +:+ js_to_string (field p k))).

(** The client reads the percentage of a progress frame from field [k]: on
    an open upload stream, the frame sets the displayed progress to that
    field of its payload. *)
Definition reads_percent_from (k : string) : Prop :=
  forall (ev : nat) (st : State) (p : obj),
    open_on UploadStream ev st ->
    progress <$> uploadProgress (dispatch ev (frame "progress" p) st)
    = Some (field p k).

(** A prompt that is empty or holds only white space. *)
Definition blank (s : string) : Prop :=
  Forall (fun c => is_white_space c = true) (list_ascii_of_string s).

End Client.

(** ** The API proxy ([handler]) *)

Module Proxy.

(** [process.env.BACKEND_URL || 'http://localhost:8000']. *)
Definition BACKEND (env : option string) : string :=
  match env with
  | Some u => if String.eqb u "" then "http://localhost:8000" else u
  | None => "http://localhost:8000"
  end.

(** A value of [req.query]: [string | string[] | undefined]. *)
Inductive QueryValue : Type :=
  | QMissing
  | QOne (v : string)
  | QMany (vs : list string).

(** A value of [req.headers]: [string | string[] | undefined]. *)
Inductive HeaderValue : Type :=
  | HMissing
  | HOne (v : string)
  | HMany (vs : list string).

Record ApiRequest : Type := {
  req_method : string;
  req_url : option string;
  req_path : QueryValue;
  req_headers : list (string * HeaderValue);
  req_body : list byte
}.

(** The request handed to [fetch]. *)
Record Outgoing : Type := {
  out_url : string;
  out_method : string;
  out_headers : list (string * string);
  out_body : option (list byte)
}.

(** The body of the backend's response as its reader yields it:
    [{done: false, value}] results, then [{done: true}], or a rejected
    [read()]. *)
Inductive BodyStream : Type :=
  | Eof
  | Read (value : list byte) (rest : BodyStream)
  | ReadFails.

(** The backend's response: [headers] lists the (key, value) pairs in the
    order [response.headers.forEach] passes them to its callback. *)
Record Response : Type := {
  status : Z;
  headers : list (string * string);
  body : option BodyStream
}.

Inductive FetchOutcome : Type :=
  | FetchFails
  | Responds (r : Response).

(** What has been written on [res]: raw chunks, or a value sent with
    [res.json]. *)
Inductive Chunk : Type :=
  | Bytes (b : list byte)
  | Json (v : jsval).

(** The [NextApiResponse]. *)
Record ServerResponse : Type := {
  statusCode : Z;
  res_headers : gmap string string;
  headersSent : bool;
  written : list Chunk;
  finished : bool
}.

Definition fresh : ServerResponse :=
  {| statusCode := 200; res_headers := ∅; headersSent := false;
     written := []; finished := false |}.

Definition res_status (code : Z) (res : ServerResponse) : ServerResponse :=
  {| statusCode := code; res_headers := res_headers res;
     headersSent := headersSent res; written := written res;
     finished := finished res |}.

(** [res.setHeader] replaces the value the name had. *)
Definition res_setHeader (key value : string) (res : ServerResponse)
    : ServerResponse :=
  {| statusCode := statusCode res;
     res_headers := <[key := value]> (res_headers res);
     headersSent := headersSent res; written := written res;
     finished := finished res |}.

(** [res.write] sends the headers with the first chunk. *)
Definition res_write (c : Chunk) (res : ServerResponse) : ServerResponse :=
  {| statusCode := statusCode res; res_headers := res_headers res;
     headersSent := true; written := written res ++ [c];
     finished := finished res |}.

Definition res_end (res : ServerResponse) : ServerResponse :=
  {| statusCode := statusCode res; res_headers := res_headers res;
     headersSent := true; written := written res;
     finished := true |}.

(** [res.json]: a JSON content type, the value, and the end of the
    response. *)
Definition res_json (v : jsval) (res : ServerResponse) : ServerResponse :=
  res_end
    (res_write (Json v)
       (res_setHeader "content-type" "application/json; charset=utf-8" res)).

(** [s.split(sep)] for a one-character separator. *)
Fixpoint split (sep : ascii) (s : string) : list string :=
  match s with
  | EmptyString => [EmptyString]
  | String c rest =>
      if Ascii.eqb c sep then EmptyString :: split sep rest
      else
        match split sep rest with
        | piece :: pieces => String c piece :: pieces
        | [] => [String c EmptyString]
        end
  end.

(** [path.join('/')]. *)
Definition join (sep : string) (l : list string) : string :=
  String.concat sep l.

Definition pathStr (path : QueryValue) : string :=
  match path with
  | QMany vs => join "/" vs
  | QOne v => v
  | QMissing => "undefined"
  end.

(** [req.url?.split('?')[1] || '']. *)
Definition queryString (url : option string) : string :=
  match url with
  | Some u => default "" (split "?"%char u !! 1%nat)
  | None => ""
  end.

Definition target (env : option string) (req : ApiRequest) : string :=
  let q := queryString (req_url req) in
  BACKEND env +:+ "/" +:+ pathStr (req_path req)
  +:+ (if String.eqb q "" then "" else "?" +:+ q).

(** The loop over [Object.entries(req.headers)]. *)
Fixpoint copy_headers (entries : list (string * HeaderValue))
    : list (string * string) :=
  match entries with
  | [] => []
  | (key, value) :: rest =>
      if String.eqb key "host" then copy_headers rest
      else
        match value with
        | HMany vs => map (fun v => (key, v)) vs ++ copy_headers rest
        | HOne v =>
            if String.eqb v "" then copy_headers rest
            else (key, v) :: copy_headers rest
        | HMissing => copy_headers rest
        end
  end.

Definition options (env : option string) (req : ApiRequest) : Outgoing :=
  {| out_url := target env req;
     out_method := req_method req;
     out_headers := copy_headers (req_headers req);
     out_body :=
       if String.eqb (req_method req) "GET"
          || String.eqb (req_method req) "HEAD"
       then None else Some (req_body req) |}.

(** The callback of [response.headers.forEach]. *)
Definition forward_header (res : ServerResponse) (h : string * string)
    : ServerResponse :=
  let '(key, value) := h in
  if String.eqb key "content-encoding" || String.eqb key "content-length"
  then res
  else res_setHeader key value res.

(** The read loop; the flag is [false] when a [read()] was rejected. *)
Fixpoint pipe (b : BodyStream) (res : ServerResponse) : ServerResponse * bool :=
  match b with
  | Eof => (res, true)
  | Read value rest => pipe rest (res_write (Bytes value) res)
  | ReadFails => (res, false)
  end.

(** The [catch] block. *)
Definition on_error (res : ServerResponse) : ServerResponse :=
  if headersSent res then res
  else res_json (JObj {[ "error" := JStr "Proxy error" ]}) (res_status 500 res).

(** The handler, against a backend that answers the forwarded request. *)
Definition handler (env : option string) (backend : Outgoing -> FetchOutcome)
    (req : ApiRequest) (res : ServerResponse) : ServerResponse :=
  match backend (options env req) with
  | FetchFails => on_error res
  | Responds response =>
      let res := res_status (status response) res in
      let res := fold_left forward_header (headers response) res in
      match body response with
      | Some b =>
          let '(res, ok) := pipe b res in
          if ok then res_end res else on_error res
      | None => res_end res
      end
  end.

(** *** Vocabulary of the properties *)

Definition excluded (k : string) : bool :=
  String.eqb k "content-encoding" || String.eqb k "content-length".

(** The value the iteration yields last under the name [k]. *)
Fixpoint last_value (k : string) (hs : list (string * string)) : option string :=
  match hs with
  | [] => None
  | (key, value) :: rest =>
      match last_value k rest with
      | Some v => Some v
      | None => if String.eqb key k then Some value else None
      end
  end.

(** The chunks a body yields when it can be read to its end. *)
Fixpoint read_all (b : BodyStream) : option (list (list byte)) :=
  match b with
  | Eof => Some []
  | Read value rest => cons value <$> read_all rest
  | ReadFails => None
  end.

Definition read_body (b : option BodyStream) : option (list (list byte)) :=
  match b with
  | Some s => read_all s
  | None => Some []
  end.

Definition proxy_error : jsval := JObj {[ "error" := JStr "Proxy error" ]}.

(** A backend that streams two chunks of an event stream. *)
Definition sse_backend (_ : Outgoing) : FetchOutcome :=
  Responds
    {| status := 200;
       headers := [("content-length", "12"); ("content-type", "text/event-stream")];
       body := Some (Read [x65; x76] (Read [x3a] Eof)) |}.

(** A backend whose response sets two cookies. *)
Definition cookie_backend (_ : Outgoing) : FetchOutcome :=
  Responds
    {| status := 200;
       headers := [("set-cookie", "a=1"); ("set-cookie", "b=2")];
       body := None |}.

Definition get_stream : ApiRequest :=
  {| req_method := "GET";
     req_url := Some "/api/proxy/stream/job-1";
     req_path := QMany ["stream"; "job-1"];
     req_headers := [("host", HOne "localhost:3000");
                     ("accept", HOne "text/event-stream")];
     req_body := [] |}.

End Proxy.

(** ** The job registry and its event channel

    The backend that owns the jobs is not among the sources; its registry
    is modelled from sections 3 and 4.1 of the specification. *)

Module Registry.

(** Modelled from the spec: the job kinds of section 3. *)
Inductive Kind : Type := generate | upload.

(** Modelled from the spec: the job statuses of section 3,
    [pending -> running -> {done | failed}]. *)
Inductive Status : Type := pending | running | done | failed.

(** Modelled from the spec: the Citation view of section 3 (sequence
    number, document title, document identity, page number). *)
Record Citation : Type := {
  seq_no : Z;
  doc_title : string;
  doc_id : string;
  page : Z
}.

(** Modelled from the spec: the Event tagged union of section 3, six
    variants. *)
Inductive Event : Type :=
  | tool_step (text : string)
  | text_chunk (text : string)
  | citation (c : Citation)
  | progress (text : string) (percent : Z)
  | done_event (summary : string)
  | error_event (message : string).

(** Modelled from the spec: the terminal events are [done] and [error]. *)
Definition is_terminal (e : Event) : bool :=
  match e with
  | done_event _ | error_event _ => true
  | _ => false
  end.

(** Modelled from the spec: the Job of section 3 (kind, status, creation
    time, append-only event log, terminal flag) with the completion time
    that [append_event] records. *)
Record Job : Type := {
  kind : Kind;
  status : Status;
  created : Z;
  log : list Event;
  terminal : bool;
  completed : option Z
}.

(** Modelled from the spec: the registry errors of sections 4.1 and 7. *)
Inductive Error : Type :=
  | UnknownJob
  | JobAlreadyTerminal
  | ResourceExhausted.

(** Modelled from the spec: the registry owns every job; identities are
    allocated from a counter and never reused. *)
Record Registry : Type := {
  jobs : gmap nat Job;
  next_id : nat
}.

(** Modelled from the spec: the registry before any job is created. *)
Definition empty : Registry := {| jobs := ∅; next_id := 0 |}.

(** Modelled from the spec: [create_job(kind) -> job_id] of section 4.1
    allocates a unique identity with status [pending] and an empty log, and
    signals [ResourceExhausted] when the registry is at capacity. *)
Definition create_job (capacity : nat) (now : Z) (k : Kind) (r : Registry)
    : Registry * (Error + nat) :=
  if decide (capacity ≤ size (jobs r))%nat then (r, inl ResourceExhausted)
  else
    let id := next_id r in
    ({| jobs :=
          <[id := {| kind := k; status := pending; created := now;
                     log := []; terminal := false; completed := None |}]>
            (jobs r);
        next_id := S id |},
     inr id).

(** Modelled from the spec: a terminal event flips the status to
    [done] or [failed]. *)
Definition status_after (e : Event) (s : Status) : Status :=
  match e with
  | done_event _ => done
  | error_event _ => failed
  | _ => s
  end.

(** Modelled from the spec: [append_event(job_id, event)] of section 4.1
    fails with [UnknownJob] if the id is absent, with [JobAlreadyTerminal]
    if a terminal event was already appended, and otherwise appends; a
    terminal event flips the status and records the completion time. *)
Definition append_event (now : Z) (id : nat) (e : Event) (r : Registry)
    : Registry * (Error + unit) :=
  match jobs r !! id with
  | None => (r, inl UnknownJob)
  | Some j =>
      if terminal j then (r, inl JobAlreadyTerminal)
      else
        ({| jobs :=
              <[id := {| kind := kind j;
                         status := status_after e (status j);
                         created := created j;
                         log := log j ++ [e];
                         terminal := is_terminal e;
                         completed :=
                           if is_terminal e then Some now else completed j |}]>
                (jobs r);
            next_id := next_id r |},
         inr tt)
  end.

(** Modelled from the spec: the reaping sweep of section 4.1 evicts the
    jobs whose terminal timestamp is older than the grace window. *)
Definition expired (grace now : Z) (j : Job) : bool :=
  match completed j with
  | Some t => (t + grace <? now)%Z
  | None => false
  end.

(** Modelled from the spec: the sweep keeps the jobs that are not
    expired. *)
Definition reap (grace now : Z) (r : Registry) : Registry :=
  {| jobs := filter (fun kv => expired grace now kv.2 = false) (jobs r);
     next_id := next_id r |}.

(** Modelled from the spec: the operations section 4.1 lets callers and
    the sweep perform on the registry. *)
Inductive Op : Type :=
  | Create (now : Z) (k : Kind)
  | Append (now : Z) (id : nat) (e : Event)
  | Reap (now : Z).

(** Modelled from the spec: one operation, its result dropped. *)
Definition step (capacity : nat) (grace : Z) (r : Registry) (o : Op)
    : Registry :=
  match o with
  | Create now k => (create_job capacity now k r).1
  | Append now id e => (append_event now id e r).1
  | Reap now => reap grace now r
  end.

(** Modelled from the spec: the registry after a run of operations from
    the empty one. *)
Definition run (capacity : nat) (grace : Z) (ops : list Op) : Registry :=
  fold_left (step capacity grace) ops empty.

(** The number of terminal events in a log. *)
Definition terminal_events (l : list Event) : nat :=
  length (filter (fun e => is_terminal e = true) l).

(** *** Vocabulary of the properties *)

(** A job's flag agrees with its log: no terminal event while the flag is
    down, exactly one, at the end, once it is up. *)
Definition job_ok (j : Job) : Prop :=
  (terminal j = false /\ Forall (fun e => is_terminal e = false) (log j)) \/
  (terminal j = true /\
   exists l e, log j = l ++ [e] /\ is_terminal e = true /\
               Forall (fun e => is_terminal e = false) l).

Definition registry_ok (r : Registry) : Prop :=
  forall id j, jobs r !! id = Some j -> job_ok j.

(** A generate job that streamed one fragment and completed. *)
Definition finished_run : list Op :=
  [Create 0 generate; Append 1 0 (text_chunk "Retrieval");
   Append 2 0 (done_event "ok")].

End Registry.

(** ** Runs of the page

    Everything that can happen to the mounted page, one handler step at a
    time: an asynchronous handler is cut at its [await]s, so that the steps
    of different handlers interleave as the event loop lets them. *)

Module Session.
Import Client.

(** The browser fails the connection of source [ev], as it does when the
    stream request is answered with a status other than 200 or with another
    content type: a source that is not closed yet is closed by the browser
    itself, and an [error] event without data is then fired at it, which
    runs the listeners the page registered under that name. *)
Definition fail_connection (ev : nat) (st : State) : State :=
  match sources st !! ev with
  | Some s =>
      if closed s then st
      else run_listeners (listeners ev (channel s))
             {| event := "error"; data := NoData |} (close ev st)
  | None => st
  end.

Inductive Action : Type :=
  | Typed (v : string)
  | Selected (c : option jsval)
  | SendClicked
  | SendReplied (p : string) (r : FetchResult)
  | Delivered (ev : nat) (f : Frame)
  | UploadStarted
  | UploadPosted (file : string)
  | UploadReplied (r : FetchResult)
  | UploadListening (uploadId : jsval)
  | UploadEnded
  | Fired (i : nat)
  | ConnectionFailed (ev : nat).

Definition perform (st : State) (a : Action) : State :=
  match a with
  | Typed v => setPrompt v st
  | Selected c => setSelectedCitation c st
  | SendClicked => (send_begin st).1
  | SendReplied p r => send_resume p r st
  | Delivered ev f => dispatch ev f st
  | UploadStarted => setUploading true st
  | UploadPosted file => fetch (upload_request file) st
  | UploadReplied r => (upload_reply r st).1
  | UploadListening uploadId => upload_listen uploadId st
  | UploadEnded => setUploading false st
  | Fired i => fire_timer i st
  | ConnectionFailed ev => fail_connection ev st
  end.

Definition run (acts : list Action) : State :=
  fold_left perform acts initial.

(** The generation stream and the state that tracks it agree: the effect's
    cleanup and the ref hold the same source, an open generation stream is
    that source, and a job id is set exactly when the ref holds one.  The
    source the ref holds need not be open: the browser may have closed
    it. *)
Definition stream_ok (st : State) : Prop :=
  cleanup st = sseRef st /\
  (forall i, open_on GenerateStream i st -> sseRef st = Some i) /\
  (js_truthy (jobId st) = true <-> is_Some (sseRef st)).

(** The sources that the upload ref and the pending timers name are
    upload-progress streams. *)
Definition upload_source (i : nat) (st : State) : Prop :=
  exists s, sources st !! i = Some s /\ channel s = UploadStream.

Definition upload_refs_ok (st : State) : Prop :=
  (forall i, uploadSseRef st = Some i -> upload_source i st) /\
  (forall ms ev, FinishUpload ms ev ∈ timers st -> upload_source ev st).

(** What the effect needs to find: every open generation stream is the one
    its pending cleanup captured, and without a cleanup the ref is empty. *)
Definition effect_ready (st : State) : Prop :=
  (forall i, open_on GenerateStream i st -> cleanup st = Some i) /\
  (cleanup st = None -> sseRef st = None).

(** The fields the stream invariants read. *)
Definition core (st : State) :=
  (sources st, sseRef st, cleanup st, jobId st, uploadSseRef st, timers st).

(** The citation a frame contributes to the answer, if any. *)
Definition cited (f : Frame) : option jsval :=
  match data f with
  | Payload p =>
      if String.eqb (event f) "text" then None
      else if String.eqb (event f) "tool" then None
      else if String.eqb (event f) "citation" then Some (JObj p)
      else None
  | _ => None
  end.

(** The exchange [send] appends for the prompt [p]. *)
Definition exchange (p : string) : list Message :=
  [{| role := user; text := JStr p; citations := None |};
   {| role := ai; text := JStr ""; citations := Some [] |}].

(** Replies on which [handleFileUpload] throws into its [catch]: a rejected
    request, a status that is not ok, a body that is not JSON, a body
    without a truthy [upload_id]. *)
Definition refused (r : FetchResult) : Prop :=
  r = Rejected \/
  (exists json, r = Replied false json) \/
  (exists ok, r = Replied ok None) \/
  (exists ok data, r = Replied ok (Some data) /\
     (js_get data "upload_id" = None \/
      exists id, js_get data "upload_id" = Some id /\ js_truthy id = false)).

(** Replies on which [send] throws before it sets any state: a rejected
    request, a body that is not JSON, a [null] body. *)
Definition unusable (r : FetchResult) : Prop :=
  r = Rejected \/
  (exists ok, r = Replied ok None) \/
  (exists ok data, r = Replied ok (Some data) /\ js_get data "job_id" = None).

(** [l'] keeps every message of [l] in its place and role, and keeps the
    messages that are not AI messages as they are. *)
Definition keeps_messages (l l' : list Message) : Prop :=
  forall i m, l !! i = Some m ->
    exists m', l' !! i = Some m' /\ role m' = role m /\
               (is_ai m = false -> m' = m).


(** The upload id on which the loop body of [handleFileUpload] goes on to
    its pause and opens the progress stream. *)
Definition accepted (r : FetchResult) : option jsval :=
  match r with
  | Replied true (Some data) =>
      match js_get data "upload_id" with
      | Some upload_id => if js_truthy upload_id then Some upload_id else None
      | None => None
      end
  | _ => None
  end.


(** Two files uploaded one after the other: the first stream has delivered
    its [done] frame, whose timer is still pending, when the second stream
    is opened. *)
Definition two_uploads : list Action :=
  [UploadStarted; UploadPosted "a.pdf";
   UploadReplied (Replied true (Some (JObj {[ "upload_id" := JStr "up-1" ]})));
   UploadListening (JStr "up-1"); UploadPosted "b.pdf";
   Delivered 0 (frame "done" {[ "filename" := JStr "a.pdf" ]});
   UploadReplied (Replied true (Some (JObj {[ "upload_id" := JStr "up-2" ]})));
   UploadListening (JStr "up-2")].

End Session.

(** ** Vocabulary for the proxy *)

Module Relay.
Import Proxy.

(** The character [c] does not occur in [s]. *)
Definition no_char (c : ascii) (s : string) : Prop :=
  Forall (fun x => x <> c) (list_ascii_of_string s).

(** A body that yields [chunks] and then rejects the next [read()]. *)
Definition failing_after (chunks : list (list byte)) : BodyStream :=
  fold_right Read ReadFails chunks.

End Relay.

(** * Properties *)

Module ClientProofs.
Import Client.

(** ** The message updaters *)

Lemma insert_middle {A} (l1 l2 : list A) (x y : A) :
  <[length l1 := y]> (l1 ++ x :: l2) = l1 ++ y :: l2.
Proof. induction l1 as [|a l1 IH]; simpl; [reflexivity | f_equal; exact IH]. Qed.

Section Updaters.
Variable f : Message -> Message.

(** The loop only looks below its starting index. *)
Lemma update_last_ai_ext (l ext : list Message) (n : nat) :
  (n <= length l)%nat ->
  update_last_ai f (l ++ ext) n = (fun l' => l' ++ ext) <$> update_last_ai f l n.
Proof.
  induction n as [|i IH]; intros Hn; cbn [update_last_ai]; [reflexivity|].
  rewrite lookup_app_l by lia.
  destruct (l !! i) as [m|] eqn:Hi.
  - destruct (is_ai m).
    + cbn. rewrite insert_app_l by lia. reflexivity.
    + apply IH. lia.
  - apply IH. lia.
Qed.

Lemma update_last_ai_snoc (l : list Message) (x : Message) :
  update_last_ai f (l ++ [x]) (length (l ++ [x])) =
  if is_ai x then Some (l ++ [f x])
  else (fun l' => l' ++ [x]) <$> update_last_ai f l (length l).
Proof.
  rewrite length_app, Nat.add_1_r. cbn [update_last_ai].
  rewrite list_lookup_middle by reflexivity.
  destruct (is_ai x).
  - now rewrite insert_middle.
  - now apply update_last_ai_ext.
Qed.

Lemma update_last_ai_none (l : list Message) :
  Forall not_ai l -> update_last_ai f l (length l) = None.
Proof.
  induction l as [|x l IH] using rev_ind; intros Hl; [reflexivity|].
  apply Forall_app in Hl as [Hl Hx]. rewrite Forall_singleton in Hx. unfold not_ai in Hx.
  rewrite update_last_ai_snoc, Hx, (IH Hl). reflexivity.
Qed.

Lemma update_last_ai_found (before after : list Message) (m : Message) :
  is_ai m = true -> Forall not_ai after ->
  update_last_ai f (before ++ m :: after) (length (before ++ m :: after))
  = Some (before ++ f m :: after).
Proof.
  intros Hm. induction after as [|x after IH] using rev_ind; intros Hafter.
  - rewrite update_last_ai_snoc, Hm. reflexivity.
  - apply Forall_app in Hafter as [Hafter Hx]. rewrite Forall_singleton in Hx. unfold not_ai in Hx.
    change (before ++ m :: after ++ [x]) with (before ++ (m :: after) ++ [x]).
    rewrite app_assoc, update_last_ai_snoc, Hx, (IH Hafter). cbn.
    rewrite <- app_assoc. reflexivity.
Qed.

(** Every list splits at its last ['ai'] message, if it has one. *)
Lemma split_last_ai (l : list Message) :
  Forall not_ai l \/
  exists before m after,
    l = before ++ m :: after /\ is_ai m = true /\ Forall not_ai after.
Proof.
  induction l as [|x l IH] using rev_ind; [left; constructor|].
  destruct (is_ai x) eqn:Hx.
  - right. exists l, x, []. repeat split; [assumption | constructor].
  - destruct IH as [IH | (before & m & after & -> & Hm & Hafter)].
    + left. apply Forall_app. split; [assumption|]. now apply Forall_singleton.
    + right. exists before, m, (after ++ [x]). rewrite <- app_assoc.
      repeat split; [assumption|]. apply Forall_app. split; [assumption|].
      now apply Forall_singleton.
Qed.
End Updaters.

Lemma last_ai_none (l : list Message) : Forall not_ai l -> last_ai l = None.
Proof.
  unfold last_ai. induction 1 as [|x l Hx Hl IH]; [reflexivity|].
  rewrite filter_cons_False; [exact IH|]. unfold not_ai in Hx. congruence.
Qed.

Lemma last_ai_found (before after : list Message) (m : Message) :
  is_ai m = true -> Forall not_ai after ->
  last_ai (before ++ m :: after) = Some m.
Proof.
  intros Hm Hafter. unfold last_ai.
  rewrite filter_app, filter_cons_True by exact Hm.
  pose proof (last_ai_none after Hafter) as Hn. unfold last_ai in Hn.
  destruct (filter (fun m0 => is_ai m0 = true) after) as [|y t] eqn:E.
  - apply last_snoc.
  - exfalso. assert (Hy : y ∈ filter (fun m0 => is_ai m0 = true) after)
      by (rewrite E; left).
    apply list_elem_of_filter in Hy as [Hy1 Hy2].
    rewrite Forall_forall in Hafter. specialize (Hafter y Hy2).
    unfold not_ai in Hafter. congruence.
Qed.

(** ** Delivery on a generation stream *)

Lemma setMessages_id (st : State) : setMessages (fun m => m) st = st.
Proof. destruct st; reflexivity. Qed.

(** The listeners a frame reaches on a generation stream, by its name. *)
Lemma run_generate_listeners (ev : nat) (f : Frame) (st : State) :
  run_listeners (listeners ev GenerateStream) f st =
  if String.eqb (event f) "text" then on_text (data f) st
  else if String.eqb (event f) "tool" then on_tool (data f) st
  else if String.eqb (event f) "citation" then on_citation (data f) st
  else if String.eqb (event f) "done" then on_done ev (data f) st
  else st.
Proof.
  unfold run_listeners, listeners. cbn [fold_left fst snd].
  rewrite !(String.eqb_sym _ (event f)).
  destruct (String.eqb_spec (event f) "text") as [->|_]; [reflexivity|].
  destruct (String.eqb_spec (event f) "tool") as [->|_]; [reflexivity|].
  destruct (String.eqb_spec (event f) "citation") as [->|_]; [reflexivity|].
  reflexivity.
Qed.

Lemma run_upload_listeners (ev : nat) (f : Frame) (st : State) :
  run_listeners (listeners ev UploadStream) f st =
  if String.eqb (event f) "progress" then on_progress (data f) st
  else if String.eqb (event f) "done" then on_upload_done ev (data f) st
  else if String.eqb (event f) "error" then on_upload_error ev (data f) st
  else st.
Proof.
  unfold run_listeners, listeners. cbn [fold_left fst snd].
  rewrite !(String.eqb_sym _ (event f)).
  destruct (String.eqb_spec (event f) "progress") as [->|_]; [reflexivity|].
  destruct (String.eqb_spec (event f) "done") as [->|_]; [reflexivity|].
  reflexivity.
Qed.

Lemma dispatch_open (c : Channel) (ev : nat) (f : Frame) (st : State) :
  open_on c ev st -> dispatch ev f st = run_listeners (listeners ev c) f st.
Proof.
  intros (s & Hs & Hc & Hch). unfold dispatch. rewrite Hs, Hc, Hch. reflexivity.
Qed.

Lemma dispatch_generate (ev : nat) (f : Frame) (st : State) :
  open_on GenerateStream ev st -> event f <> "done" ->
  dispatch ev f st = setMessages (frame_updater f) st.
Proof.
  intros Hopen Hdone. rewrite (dispatch_open _ _ _ _ Hopen), run_generate_listeners.
  unfold frame_updater, on_text, on_tool, on_citation.
  apply String.eqb_neq in Hdone. rewrite Hdone.
  destruct (data f); repeat (destruct (String.eqb _ _));
    try reflexivity; symmetry; apply setMessages_id.
Qed.

Lemma open_on_setMessages (c : Channel) (ev : nat) u (st : State) :
  open_on c ev st -> open_on c ev (setMessages u st).
Proof. intros H; exact H. Qed.

Lemma deliver_generate (ev : nat) (fs : list Frame) (st : State) :
  open_on GenerateStream ev st -> Forall (fun f => event f <> "done") fs ->
  deliver ev fs st =
  setMessages (fun m => fold_left (fun acc f => frame_updater f acc) fs m) st.
Proof.
  intros Hopen Hfs. revert st Hopen.
  induction Hfs as [|f fs Hf Hfs IH]; intros st Hopen.
  - symmetry. apply setMessages_id.
  - unfold deliver in *. cbn [fold_left].
    rewrite (dispatch_generate _ _ _ Hopen Hf).
    rewrite (IH _ (open_on_setMessages _ _ _ _ Hopen)). reflexivity.
Qed.

Lemma frame_effect_ai (f : Frame) (m : Message) :
  is_ai m = true -> is_ai (frame_effect f m) = true.
Proof.
  unfold frame_effect. intros Hm.
  destruct (data f); repeat (destruct (String.eqb _ _)); exact Hm.
Qed.

(** A frame rewrites the last ['ai'] message in place and at most appends
    ['tool'] messages after it. *)
Lemma frame_updater_split (f : Frame) (before after : list Message) (m : Message) :
  is_ai m = true -> Forall not_ai after ->
  exists after',
    frame_updater f (before ++ m :: after) = before ++ frame_effect f m :: after'
    /\ Forall not_ai after'.
Proof.
  intros Hm Hafter. unfold frame_updater, frame_effect.
  destruct (data f) as [| |p]; try (exists after; split; [reflexivity|assumption]).
  destruct (String.eqb (event f) "text").
  { exists after. split; [|assumption]. unfold text_updater.
    rewrite update_last_ai_found by assumption. reflexivity. }
  destruct (String.eqb (event f) "tool").
  { exists (after ++ [{| role := tool; text := field p "step"; citations := None |}]).
    split.
    - unfold tool_updater. rewrite <- app_assoc. reflexivity.
    - apply Forall_app. split; [assumption|]. now apply Forall_singleton. }
  destruct (String.eqb (event f) "citation").
  { exists after. split; [|assumption]. unfold citation_updater.
    rewrite update_last_ai_found by assumption. reflexivity. }
  exists after. split; [reflexivity|assumption].
Qed.

Lemma frames_updater_split (fs : list Frame) (before after : list Message)
    (m : Message) :
  is_ai m = true -> Forall not_ai after ->
  exists after',
    fold_left (fun acc f => frame_updater f acc) fs (before ++ m :: after)
    = before ++ fold_left (fun acc f => frame_effect f acc) fs m :: after'
    /\ Forall not_ai after'.
Proof.
  revert m after. induction fs as [|f fs IH]; intros m after Hm Hafter.
  - exists after. split; [reflexivity|assumption].
  - cbn [fold_left].
    destruct (frame_updater_split f before after m Hm Hafter) as (a1 & -> & Ha1).
    apply IH; [now apply frame_effect_ai | assumption].
Qed.

Lemma frames_effect_ai (fs : list Frame) (m : Message) :
  is_ai m = true ->
  is_ai (fold_left (fun acc f => frame_effect f acc) fs m) = true.
Proof.
  revert m. induction fs as [|f fs IH]; intros m Hm; [exact Hm|].
  cbn [fold_left]. apply IH. now apply frame_effect_ai.
Qed.

Lemma last_ai_split (l : list Message) (m : Message) :
  last_ai l = Some m ->
  exists before after,
    l = before ++ m :: after /\ is_ai m = true /\ Forall not_ai after.
Proof.
  intros Hl. destruct (split_last_ai l) as [Hn | (before & m' & after & -> & Hm & Ha)].
  - rewrite (last_ai_none l Hn) in Hl. discriminate.
  - rewrite (last_ai_found before after m' Hm Ha) in Hl.
    injection Hl as <-. eauto.
Qed.

(** The last ['ai'] message after any frames short of [done]. *)
Lemma deliver_last_ai (ev : nat) (fs : list Frame) (st : State) (m : Message) :
  open_on GenerateStream ev st -> Forall (fun f => event f <> "done") fs ->
  last_ai (messages st) = Some m ->
  last_ai (messages (deliver ev fs st))
  = Some (fold_left (fun acc f => frame_effect f acc) fs m).
Proof.
  intros Hopen Hfs Hm. rewrite (deliver_generate _ _ _ Hopen Hfs).
  destruct (last_ai_split _ _ Hm) as (before & after & Hl & Hai & Hafter).
  cbn [messages setMessages]. rewrite Hl.
  destruct (frames_updater_split fs before after m Hai Hafter) as (a' & -> & Ha').
  apply last_ai_found; [now apply frames_effect_ai | assumption].
Qed.






Lemma append_assoc (a b c : string) : (a +:+ b) +:+ c = a +:+ (b +:+ c).
Proof.
  induction a as [|x a IH]; [reflexivity|].
  change (String x ((a +:+ b) +:+ c) = String x (a +:+ (b +:+ c))).
  now rewrite IH.
Qed.

Lemma append_empty_r (a : string) : a +:+ "" = a.
Proof.
  induction a as [|x a IH]; [reflexivity|].
  change (String x (a +:+ "") = String x a). now rewrite IH.
Qed.

Lemma text_frames_effect (chunks : list string) (m : Message) (t : string) :
  text m = JStr t ->
  fold_left (fun acc f => frame_effect f acc) (map text_frame chunks) m
  = {| role := role m; text := JStr (t +:+ concat_all chunks);
       citations := citations m |}.
Proof.
  revert m t. induction chunks as [|c chunks IH]; intros m t Ht.
  - cbn. destruct m as [r x cs]; cbn in *. subst x.
    now rewrite append_empty_r.
  - cbn [map fold_left].
    rewrite (IH _ (t +:+ c)).
    + rewrite append_assoc. reflexivity.
    + unfold frame_effect, text_frame, add_chunk, field; cbn.
      rewrite lookup_singleton_eq, Ht. reflexivity.
Qed.

Lemma text_frames_not_done (chunks : list string) :
  Forall (fun f => event f <> "done") (map text_frame chunks).
Proof. apply Forall_map, Forall_forall. intros c _. cbn. discriminate. Qed.

(** C2. On an open generation stream whose answer is still empty (as
    [send] creates it), after the text frames carrying the fragments
    [chunks] have been delivered in order, the text of the most recent AI
    message is the concatenation of the fragments in delivery order. *)
Theorem text_frames_concatenate (ev : nat) (st : State) (m : Message)
    (chunks : list string) :
  open_on GenerateStream ev st ->
  last_ai (messages st) = Some m ->
  text m = JStr "" ->
  text <$> last_ai (messages (deliver ev (map text_frame chunks) st))
  = Some (JStr (concat_all chunks)).
Proof.
  intros Hopen Hm Ht.
  rewrite (deliver_last_ai _ _ _ _ Hopen (text_frames_not_done chunks) Hm).
  rewrite (text_frames_effect chunks m "" Ht). reflexivity.
Qed.

Lemma asked_open : open_on GenerateStream 0 (asked "What is RAG?" "job-1").
Proof. eexists. repeat split; vm_compute; reflexivity. Qed.

Lemma text_frames_concatenate_witness :
  open_on GenerateStream 0 (asked "What is RAG?" "job-1") /\
  text <$> last_ai (messages
    (deliver 0 (map text_frame ["Retrieval"; "-augmented"; " generation"])
       (asked "What is RAG?" "job-1")))
  = Some (JStr "Retrieval-augmented generation").
Proof.
  split; [exact asked_open|].
  apply (text_frames_concatenate 0 (asked "What is RAG?" "job-1")
           {| role := ai; text := JStr ""; citations := Some [] |}
           ["Retrieval"; "-augmented"; " generation"]).
  - exact asked_open.
  - vm_compute. reflexivity.
  - reflexivity.
Defined.

Lemma js_to_string_primitive (v : jsval) :
  js_to_string (to_primitive v) = js_to_string v.
Proof. destruct v; reflexivity. Qed.

Lemma frame_effect_text (f : Frame) (m : Message) (t : string) :
  text m = JStr t ->
  text (frame_effect f m) = JStr (t +:+ default "" (fragment f)).
Proof.
  intros Ht. unfold frame_effect, fragment.
  destruct (data f) as [| |p]; try (now rewrite append_empty_r).
  destruct (String.eqb (event f) "text").
  - cbn. rewrite Ht. unfold js_add. cbn [to_primitive].
    now rewrite js_to_string_primitive.
  - repeat (destruct (String.eqb _ _)); cbn; now rewrite append_empty_r.
Qed.

(** Whatever frames short of [done] are interleaved on the stream, the
    answer's text grows by the fragments of the text frames, in delivery
    order. *)
Lemma answer_text_accumulates (ev : nat) (fs : list Frame) (st : State)
    (m : Message) (t : string) :
  open_on GenerateStream ev st -> Forall (fun f => event f <> "done") fs ->
  last_ai (messages st) = Some m -> text m = JStr t ->
  text <$> last_ai (messages (deliver ev fs st))
  = Some (JStr (t +:+ concat_all (omap fragment fs))).
Proof.
  intros Hopen Hfs Hm Ht. rewrite (deliver_last_ai _ _ _ _ Hopen Hfs Hm).
  cbn. f_equal. clear Hopen Hfs Hm. revert m t Ht.
  induction fs as [|f fs IH]; intros m t Ht.
  - cbn. now rewrite append_empty_r.
  - cbn [fold_left]. rewrite (IH _ _ (frame_effect_text f m t Ht)).
    rewrite append_assoc.
    change (omap fragment (f :: fs))
      with (match fragment f with
            | Some y => y :: omap fragment fs
            | None => omap fragment fs
            end).
    destruct (fragment f); reflexivity.
Qed.

(** ** Frame names *)

(** C1, as stated, fails: of the frame names of the specification,
    [text-chunk] has no listener on a generation stream. *)
Lemma spec_names_not_covered :
  ~ (forall name, In name spec_frame_names -> covers GenerateStream name = true).
Proof.
  intros H. specialize (H "text-chunk").
  assert (Hin : In "text-chunk" spec_frame_names) by (cbn; tauto).
  specialize (H Hin). vm_compute in H. discriminate.
Qed.

(** C1, amended. On a generation stream the listeners are registered under
    the names [text], [tool], [citation] and [done]; a frame under one of
    these names is handled by the listener of that name, and a frame named
    [tool-step], [text-chunk] or [progress] reaches no listener and leaves
    the client state unchanged. *)
Theorem generate_stream_listeners (ev : nat) (f : Frame) (st : State) :
  open_on GenerateStream ev st ->
  listener_names GenerateStream = ["text"; "tool"; "citation"; "done"] /\
  (event f = "text" -> dispatch ev f st = on_text (data f) st) /\
  (event f = "tool" -> dispatch ev f st = on_tool (data f) st) /\
  (event f = "citation" -> dispatch ev f st = on_citation (data f) st) /\
  (event f = "done" -> dispatch ev f st = on_done ev (data f) st) /\
  (In (event f) ["tool-step"; "text-chunk"; "progress"] ->
   dispatch ev f st = st).
Proof.
  intros Hopen. rewrite (dispatch_open _ _ _ _ Hopen), run_generate_listeners.
  split; [reflexivity|].
  repeat split; intros H.
  - rewrite H. reflexivity.
  - rewrite H. reflexivity.
  - rewrite H. reflexivity.
  - rewrite H. reflexivity.
  - cbn in H. destruct H as [<-|[<-|[<-|[]]]]; reflexivity.
Qed.

Lemma generate_stream_listeners_witness :
  open_on GenerateStream 0 (asked "What is RAG?" "job-1") /\
  dispatch 0 (frame "text-chunk" {[ "chunk" := JStr "Retrieval" ]})
    (asked "What is RAG?" "job-1")
  = asked "What is RAG?" "job-1".
Proof.
  split; [exact asked_open|].
  apply (generate_stream_listeners 0
           (frame "text-chunk" {[ "chunk" := JStr "Retrieval" ]})
           (asked "What is RAG?" "job-1") asked_open).
  cbn. tauto.
Defined.

(** The listeners of the upload-progress stream. *)
Lemma upload_stream_listeners :
  listener_names UploadStream = ["progress"; "done"; "error"].
Proof. reflexivity. Qed.

(** ** Terminal frames *)

Lemma close_closed (e ev : nat) (st : State) :
  is_open ev st = false -> is_open ev (close e st) = false.
Proof.
  unfold is_open, close, set_sources. cbn [sources].
  destruct (decide (e = ev)) as [->|Hne].
  - rewrite list_lookup_alter_eq. destruct (sources st !! ev); reflexivity.
  - rewrite list_lookup_alter_ne by exact Hne. trivial.
Qed.

Lemma close_closes (ev : nat) (st : State) : is_open ev (close ev st) = false.
Proof.
  unfold is_open, close, set_sources. cbn [sources].
  rewrite list_lookup_alter_eq. destruct (sources st !! ev); reflexivity.
Qed.

(** A [done] frame on an open generation stream closes the source, clears
    the ref and the job id, and the page shows Ready. *)
Lemma done_frame_closes_stream (ev : nat) (d : FrameData) (st : State) :
  open_on GenerateStream ev st ->
  let st' := dispatch ev {| event := "done"; data := d |} st in
  is_open ev st' = false /\ sseRef st' = None /\ jobId st' = JNull /\
  statusLabel st' = Ready.
Proof.
  intros Hopen st'. subst st'.
  rewrite (dispatch_open _ _ _ _ Hopen), run_generate_listeners. cbn [event].
  change (String.eqb "done" "text") with false.
  change (String.eqb "done" "tool") with false.
  change (String.eqb "done" "citation") with false.
  change (String.eqb "done" "done") with true. cbv iota.
  unfold on_done, render. cbn [jobId setJobId].
  destruct (same_value (jobId st) JNull).
  - repeat split. apply close_closes.
  - unfold jobId_effect. cbn [cleanup setJobId set_sseRef close set_sources].
    destruct (cleanup st) as [e|]; cbn; repeat split.
    + apply (close_closed e ev (close ev st)), close_closes.
    + apply close_closes.
Qed.

(** C3, at the failing input: an [error] frame delivered on the stream that
    [send] opened changes nothing: the source stays open, the ref and the
    job id stay set, and the page keeps showing that it is streaming. *)
Lemma error_frame_leaves_stream_open :
  let st := asked "What is RAG?" "job-1" in
  let st' := dispatch 0 (frame "error" {[ "message" := JStr "model unavailable" ]}) st in
  sseRef st = Some 0%nat /\ st' = st /\ is_open 0 st' = true /\
  sseRef st' = Some 0%nat /\ jobId st' = JStr "job-1" /\
  statusLabel st' = Streaming.
Proof. vm_compute. repeat split; reflexivity. Qed.

(** The upload-progress stream does close on an [error] frame. *)
Lemma upload_error_closes_stream (ev : nat) (d : FrameData) (st : State) :
  open_on UploadStream ev st -> d <> Malformed ->
  let st' := dispatch ev {| event := "error"; data := d |} st in
  is_open ev st' = false /\ uploadSseRef st' = None.
Proof.
  intros Hopen Hd st'. subst st'.
  rewrite (dispatch_open _ _ _ _ Hopen), run_upload_listeners. cbn [event].
  change (String.eqb "error" "progress") with false.
  change (String.eqb "error" "done") with false.
  change (String.eqb "error" "error") with true. cbv iota.
  unfold on_upload_error.
  destruct d as [| |p]; [|contradiction|]; cbn [upload_error_message];
    (split; [apply close_closes | reflexivity]).
Qed.

(** ** Citations *)






(** ** Payload fields *)

Lemma uploading_open :
  open_on UploadStream 0 (uploading_state "paper.pdf" "up-1").
Proof. eexists. repeat split; vm_compute; reflexivity. Qed.

(** C6, as stated, fails: a fragment under [text] and a percentage under
    [percent] are not what the client reads. *)
Lemma section3_fields_not_read :
  ~ reads_fragment_from "text" /\ ~ reads_percent_from "percent".
Proof.
  split; intros H.
  - specialize (H 0%nat (asked "What is RAG?" "job-1")
                  {| role := ai; text := JStr ""; citations := Some [] |}
                  "" {[ "text" := JStr "Retrieval" ]} asked_open).
    vm_compute in H. specialize (H eq_refl eq_refl). discriminate.
  - specialize (H 0%nat (uploading_state "paper.pdf" "up-1")
                  {[ "text" := JStr "Parsing"; "percent" := JNum 25 ]}
                  uploading_open).
    vm_compute in H. discriminate.
Qed.

Lemma text_frame_fragment (ev : nat) (st : State) (m : Message) (t : string)
    (p : obj) :
  open_on GenerateStream ev st ->
  last_ai (messages st) = Some m ->
  text m = JStr t ->
  text <$> last_ai (messages (dispatch ev (frame "text" p) st))
  = Some (JStr (t +:+ js_to_string (field p "chunk"))).
Proof.
  intros Hopen Hm Ht.
  assert (Hnd : Forall (fun f => event f <> "done") [frame "text" p])
    by (constructor; [discriminate | constructor]).
  pose proof (answer_text_accumulates ev [frame "text" p] st m t
                Hopen Hnd Hm Ht) as H.
  cbn in H. rewrite append_empty_r in H. exact H.
Qed.

Lemma progress_frame_fields (ev : nat) (st : State) (p : obj) :
  open_on UploadStream ev st ->
  uploadProgress (dispatch ev (frame "progress" p) st)
  = Some {| step := field p "text"; progress := field p "progress" |}.
Proof.
  intros Hopen.
  rewrite (dispatch_open _ _ _ _ Hopen), run_upload_listeners. reflexivity.
Qed.

(** C6, amended. A text frame carries its fragment under field [chunk] and
    a progress frame carries its percentage under field [progress]; the
    client reads the fragment and the percentage from exactly those
    fields. *)
Theorem wire_fields_read :
  reads_fragment_from "chunk" /\ reads_percent_from "progress".
Proof.
  split.
  - intros ev st m t p. apply text_frame_fragment.
  - intros ev st p Hopen. rewrite (progress_frame_fields _ _ _ Hopen).
    reflexivity.
Qed.

Lemma wire_fields_read_witness :
  text <$> last_ai (messages
    (dispatch 0 (frame "text" {[ "chunk" := JStr "Retrieval" ]})
       (asked "What is RAG?" "job-1")))
  = Some (JStr "Retrieval") /\
  progress <$> uploadProgress
    (dispatch 0 (frame "progress" {[ "text" := JStr "Parsing"; "progress" := JNum 25 ]})
       (uploading_state "paper.pdf" "up-1"))
  = Some (JNum 25).
Proof.
  destruct wire_fields_read as [Hfragment Hpercent]. split.
  - exact (Hfragment 0%nat (asked "What is RAG?" "job-1")
             {| role := ai; text := JStr ""; citations := Some [] |}
             "" {[ "chunk" := JStr "Retrieval" ]} asked_open eq_refl eq_refl).
  - exact (Hpercent 0%nat (uploading_state "paper.pdf" "up-1")
             {[ "text" := JStr "Parsing"; "progress" := JNum 25 ]}
             uploading_open).
Defined.

(** ** The upload stream's [done] frame *)

(** C7. On an open upload stream, a [done] frame whose payload names the
    ingested document under [filename] makes the client append that
    filename to the uploaded-files list and set the displayed progress to
    100. *)
Theorem upload_done_appends_filename (ev : nat) (p : obj) (st : State) :
  open_on UploadStream ev st ->
  let st' := dispatch ev (frame "done" p) st in
  uploadedFiles st' = uploadedFiles st ++ [field p "filename"] /\
  progress <$> uploadProgress st' = Some (JNum 100).
Proof.
  intros Hopen st'. subst st'.
  rewrite (dispatch_open _ _ _ _ Hopen), run_upload_listeners. cbn [event frame].
  change (String.eqb "done" "progress") with false.
  change (String.eqb "done" "done") with true. cbv iota.
  split; reflexivity.
Qed.

Lemma upload_done_appends_filename_witness :
  open_on UploadStream 0 (uploading_state "paper.pdf" "up-1") /\
  uploadedFiles
    (dispatch 0
       (frame "done" {[ "message" := JStr "Indexed"; "filename" := JStr "paper.pdf" ]})
       (uploading_state "paper.pdf" "up-1"))
  = [JStr "paper.pdf"].
Proof.
  pose proof uploading_open as Hopen.
  split; [exact Hopen|].
  exact (proj1 (upload_done_appends_filename 0
           {[ "message" := JStr "Indexed"; "filename" := JStr "paper.pdf" ]}
           (uploading_state "paper.pdf" "up-1") Hopen)).
Defined.

(** ** Frame conditions *)

Lemma updater_frame (f : Message -> Message) (msgs : list Message) :
  let msgs' := default msgs (update_last_ai f msgs (length msgs)) in
  (Forall not_ai msgs /\ msgs' = msgs) \/
  (exists before m after,
     msgs = before ++ m :: after /\ is_ai m = true /\ Forall not_ai after /\
     msgs' = before ++ f m :: after).
Proof.
  cbn zeta.
  destruct (split_last_ai msgs) as [Hn | (before & m & after & -> & Hm & Ha)].
  - left. split; [exact Hn|]. rewrite (update_last_ai_none f msgs Hn). reflexivity.
  - right. exists before, m, after. repeat split; try assumption.
    rewrite (update_last_ai_found f before after m Hm Ha). reflexivity.
Qed.

(** C8. A [text] or a [citation] frame delivered on any source changes at
    most the most recent message with role ['ai'], which keeps its role and
    its place, and leaves every other message as it was; a list without an
    AI message is left unchanged. *)
Theorem text_and_citation_frames_touch_last_ai_only (ev : nat) (f : Frame)
    (st : State) :
  event f = "text" \/ event f = "citation" ->
  let msgs := messages st in
  let msgs' := messages (dispatch ev f st) in
  (Forall not_ai msgs /\ msgs' = msgs) \/
  (exists before m m' after,
     msgs = before ++ m :: after /\ is_ai m = true /\ Forall not_ai after /\
     msgs' = before ++ m' :: after /\ role m' = role m).
Proof.
  intros Hname msgs msgs'. subst msgs msgs'.
  assert (Hsame :
    (Forall not_ai (messages st) /\ messages st = messages st) \/
    (exists before m m' after,
       messages st = before ++ m :: after /\ is_ai m = true /\
       Forall not_ai after /\ messages st = before ++ m' :: after /\
       role m' = role m)).
  { destruct (split_last_ai (messages st))
      as [Hn | (before & m & after & Hl & Hm & Ha)].
    - left. split; [exact Hn | reflexivity].
    - right. exists before, m, m, after. repeat split; assumption. }
  unfold dispatch.
  destruct (sources st !! ev) as [s|]; [|exact Hsame].
  destruct (closed s); [exact Hsame|].
  assert (Hupd : forall u : Message -> Message,
    (forall m, role (u m) = role m) ->
    (Forall not_ai (messages st) /\
     default (messages st) (update_last_ai u (messages st) (length (messages st)))
     = messages st) \/
    (exists before m m' after,
       messages st = before ++ m :: after /\ is_ai m = true /\
       Forall not_ai after /\
       default (messages st) (update_last_ai u (messages st) (length (messages st)))
       = before ++ m' :: after /\ role m' = role m)).
  { intros u Hu. destruct (updater_frame u (messages st))
      as [H | (before & m & after & Hl & Hm & Ha & Hr)].
    - left. exact H.
    - right. exists before, m, (u m), after. repeat split; try assumption.
      apply Hu. }
  destruct (channel s).
  - rewrite run_generate_listeners.
    destruct Hname as [-> | ->].
    + change (String.eqb "text" "text") with true. cbv iota.
      unfold on_text. destruct (data f) as [| |p]; try exact Hsame.
      apply (Hupd (add_chunk p)). reflexivity.
    + change (String.eqb "citation" "text") with false.
      change (String.eqb "citation" "tool") with false.
      change (String.eqb "citation" "citation") with true. cbv iota.
      unfold on_citation. destruct (data f) as [| |p]; try exact Hsame.
      apply (Hupd (add_citation (JObj p))). reflexivity.
  - rewrite run_upload_listeners.
    destruct Hname as [-> | ->]; exact Hsame.
Qed.

Lemma text_and_citation_frames_touch_last_ai_only_witness :
  (event (text_frame "Retrieval") = "text"
   \/ event (text_frame "Retrieval") = "citation") /\
  exists before m m' after,
    messages (asked "What is RAG?" "job-1") = before ++ m :: after /\
    messages (dispatch 0 (text_frame "Retrieval") (asked "What is RAG?" "job-1"))
    = before ++ m' :: after.
Proof.
  split; [left; reflexivity|].
  destruct (text_and_citation_frames_touch_last_ai_only 0
              (text_frame "Retrieval") (asked "What is RAG?" "job-1")
              (or_introl eq_refl))
    as [[Hn _] | (before & m & m' & after & Hl & _ & _ & Hl' & _)].
  - exfalso. vm_compute in Hn. inversion Hn as [|x l Hx Hl]; subst.
    inversion Hl as [|y l' Hy Hl']; subst. discriminate Hy.
  - exists before, m, m', after. split; assumption.
Defined.

(** ** The guard of [send] *)

Lemma trim_start_blank (s : string) : blank s -> trim_start s = "".
Proof.
  unfold blank. induction s as [|c s IH]; cbn; intros H; [reflexivity|].
  inversion H as [|x l Hc Hs]; subst. rewrite Hc. now apply IH.
Qed.

Lemma trim_blank (s : string) : blank s -> trim s = "".
Proof. intros H. unfold trim. rewrite (trim_start_blank s H). reflexivity. Qed.

(** C9. With an empty or white-space-only prompt, [send] returns at its
    guard: no request is issued and the state (message list, job id and
    prompt included) is unchanged, whatever the server would answer. *)
Theorem send_blank_prompt (r : FetchResult) (st : State) :
  blank (prompt st) ->
  send_begin st = (st, false) /\ send r st = st /\
  requests (send r st) = requests st /\
  messages (send r st) = messages st /\
  jobId (send r st) = jobId st /\
  prompt (send r st) = prompt st.
Proof.
  intros H.
  assert (Hb : send_begin st = (st, false)).
  { unfold send_begin. rewrite (trim_blank _ H). reflexivity. }
  assert (Hs : send r st = st) by (unfold send; rewrite Hb; reflexivity).
  rewrite Hs. repeat split; assumption.
Qed.

Lemma send_blank_prompt_witness :
  blank (prompt (setPrompt "   " initial)) /\
  send (Replied true (Some (JObj {[ "job_id" := JStr "job-1" ]})))
    (setPrompt "   " initial)
  = setPrompt "   " initial.
Proof.
  assert (H : blank (prompt (setPrompt "   " initial)))
    by (repeat constructor).
  split; [exact H|].
  apply (send_blank_prompt
           (Replied true (Some (JObj {[ "job_id" := JStr "job-1" ]})))
           (setPrompt "   " initial) H).
Defined.

Lemma rev_app_chars (s1 s2 : string) :
  list_ascii_of_string (String.rev_app s1 s2)
  = rev (list_ascii_of_string s1) ++ list_ascii_of_string s2.
Proof.
  revert s2. induction s1 as [|c s1 IH]; intros s2; [reflexivity|].
  cbn [String.rev_app list_ascii_of_string rev]. rewrite IH, <- app_assoc.
  reflexivity.
Qed.

Lemma rev_chars (s : string) :
  list_ascii_of_string (String.rev s) = rev (list_ascii_of_string s).
Proof. unfold String.rev. rewrite rev_app_chars. apply app_nil_r. Qed.

Lemma trim_start_empty (s : string) : trim_start s = "" -> blank s.
Proof.
  unfold blank. induction s as [|c s IH]; cbn; intros H; [constructor|].
  destruct (is_white_space c) eqn:Hc; [|discriminate].
  constructor; [exact Hc | now apply IH].
Qed.

Lemma trim_start_suffix (s : string) :
  exists pre, blank pre /\ s = pre +:+ trim_start s.
Proof.
  induction s as [|c s (pre & Hpre & Hs)].
  - exists "". split; [constructor | reflexivity].
  - cbn [trim_start]. destruct (is_white_space c) eqn:Hc.
    + exists (String c pre). split; [constructor; assumption|].
      change (String c s = String c (pre +:+ trim_start s)). now rewrite <- Hs.
    + exists "". split; [constructor | reflexivity].
Qed.

Lemma chars_append (a b : string) :
  list_ascii_of_string (a +:+ b)
  = list_ascii_of_string a ++ list_ascii_of_string b.
Proof.
  induction a as [|c a IH]; [reflexivity|].
  change (c :: list_ascii_of_string (a +:+ b)
          = c :: (list_ascii_of_string a ++ list_ascii_of_string b)).
  now rewrite IH.
Qed.

(** The guard lets exactly the blank prompts return. *)
Lemma trim_empty_iff_blank (s : string) : trim s = "" <-> blank s.
Proof.
  split; [|apply trim_blank].
  unfold trim, trim_end. intros H.
  assert (H1 : blank (String.rev (trim_start s))).
  { apply trim_start_empty.
    destruct (trim_start (String.rev (trim_start s))) as [|c r] eqn:E;
      [reflexivity|].
    exfalso. apply (f_equal list_ascii_of_string) in H.
    rewrite rev_chars in H. cbn in H.
    destruct (rev (list_ascii_of_string r)); discriminate H. }
  unfold blank in H1. rewrite rev_chars in H1. apply Forall_rev in H1.
  rewrite rev_involutive in H1.
  destruct (trim_start_suffix s) as (pre & Hpre & Hs).
  unfold blank. rewrite Hs, chars_append. apply Forall_app. split; assumption.
Qed.

(** A prompt with anything else in it is sent. *)
Lemma send_begin_posts (st : State) :
  ~ blank (prompt st) ->
  send_begin st = (fetch (generate_request (prompt st)) st, true).
Proof.
  intros H. unfold send_begin. cbn [js_truthy].
  rewrite <- trim_empty_iff_blank in H.
  apply String.eqb_neq in H. rewrite H. reflexivity.
Qed.

End ClientProofs.


(** ** The proxy handler *)

Module ProxyProofs.
Import Proxy.

Lemma forward_headers_fields (hs : list (string * string)) (res : ServerResponse) :
  let res' := fold_left forward_header hs res in
  statusCode res' = statusCode res /\ headersSent res' = headersSent res /\
  written res' = written res /\ finished res' = finished res.
Proof.
  revert res. induction hs as [|[key value] hs IH]; intros res; cbn zeta.
  - repeat split.
  - cbn [fold_left]. specialize (IH (forward_header res (key, value))).
    cbn zeta in IH. destruct IH as (H1 & H2 & H3 & H4).
    rewrite H1, H2, H3, H4. unfold forward_header.
    destruct (_ || _); repeat split.
Qed.

Lemma forward_headers_lookup (hs : list (string * string)) (res : ServerResponse)
    (k : string) :
  res_headers (fold_left forward_header hs res) !! k =
  if excluded k then res_headers res !! k
  else match last_value k hs with
       | Some v => Some v
       | None => res_headers res !! k
       end.
Proof.
  revert res. induction hs as [|[key value] hs IH]; intros res.
  - cbn. destruct (excluded k); reflexivity.
  - cbn [fold_left last_value]. rewrite IH.
    destruct (excluded k) eqn:Hk.
    + unfold forward_header.
      destruct (String.eqb key "content-encoding" || String.eqb key "content-length")
        eqn:Hkey; [reflexivity|].
      cbn [res_headers res_setHeader]. apply lookup_insert_ne.
      intros ->. unfold excluded in Hk. congruence.
    + destruct (last_value k hs); [reflexivity|].
      unfold forward_header.
      destruct (String.eqb_spec key k) as [->|Hne].
      * unfold excluded in Hk. rewrite Hk.
        cbn [res_headers res_setHeader]. apply lookup_insert_eq.
      * destruct (_ || _); [reflexivity|].
        cbn [res_headers res_setHeader]. now apply lookup_insert_ne.
Qed.

Lemma pipe_read_all (b : BodyStream) (chunks : list (list byte))
    (res : ServerResponse) :
  read_all b = Some chunks ->
  exists res',
    pipe b res = (res', true) /\
    statusCode res' = statusCode res /\ res_headers res' = res_headers res /\
    written res' = written res ++ map Bytes chunks /\
    finished res' = finished res.
Proof.
  revert chunks res. induction b as [|value rest IH|]; intros chunks res H.
  - injection H as <-. exists res. cbn. rewrite app_nil_r. repeat split.
  - cbn in H. destruct (read_all rest) as [cs|] eqn:Hrest; [|discriminate].
    injection H as <-.
    destruct (IH cs (res_write (Bytes value) res) eq_refl)
      as (res' & Hp & H1 & H2 & H3 & H4).
    exists res'. cbn [pipe]. rewrite Hp, H1, H2, H3, H4. cbn.
    rewrite <- app_assoc. repeat split.
  - discriminate.
Qed.

(** What the handler does get right.  Started on a response whose headers
    are not sent yet, it answers a failed fetch with status 500 and the body
    [{"error": "Proxy error"}]; and a backend response whose body can be read
    to its end is relayed with the backend's status code, with every header
    name other than [content-encoding] and [content-length] carrying the
    value the backend's headers yield last for it, with those two names left
    as they were, and with the body chunks written in order before the
    response is ended. *)
Theorem handler_relays (env : option string) (backend : Outgoing -> FetchOutcome)
    (req : ApiRequest) (res : ServerResponse) :
  headersSent res = false ->
  let res' := handler env backend req res in
  match backend (options env req) with
  | FetchFails =>
      statusCode res' = 500 /\
      written res' = written res ++ [Json proxy_error] /\
      finished res' = true
  | Responds response =>
      forall chunks, read_body (body response) = Some chunks ->
        statusCode res' = status response /\
        (forall k, excluded k = false ->
           res_headers res' !! k =
           match last_value k (headers response) with
           | Some v => Some v
           | None => res_headers res !! k
           end) /\
        (forall k, excluded k = true ->
           res_headers res' !! k = res_headers res !! k) /\
        written res' = written res ++ map Bytes chunks /\
        finished res' = true
  end.
Proof.
  intros Hsent res'. subst res'. unfold handler.
  destruct (backend (options env req)) as [|response].
  - unfold on_error. rewrite Hsent. repeat split.
  - intros chunks Hbody.
    set (r1 := fold_left forward_header (headers response)
                 (res_status (status response) res)).
    destruct (forward_headers_fields (headers response)
                (res_status (status response) res)) as (F1 & F2 & F3 & F4).
    fold r1 in F1, F2, F3, F4. cbn in F1, F2, F3, F4.
    assert (Hlook : forall k,
      res_headers r1 !! k =
      if excluded k then res_headers res !! k
      else match last_value k (headers response) with
           | Some v => Some v
           | None => res_headers res !! k
           end).
    { intros k. unfold r1. rewrite forward_headers_lookup. reflexivity. }
    destruct (body response) as [b|]; cbn in Hbody.
    + destruct (pipe_read_all b chunks r1 Hbody) as (r2 & Hp & P1 & P2 & P3 & P4).
      rewrite Hp. cbn. rewrite P1, P2, P3, F1, F3.
      repeat split; intros k Hk; rewrite Hlook, Hk; reflexivity.
    + injection Hbody as <-. cbn. rewrite F1, F3, app_nil_r.
      repeat split; intros k Hk; rewrite Hlook, Hk; reflexivity.
Qed.

Lemma handler_relays_witness :
  headersSent fresh = false /\
  res_headers (handler None sse_backend get_stream fresh) !! "content-type"
  = Some "text/event-stream" /\
  res_headers (handler None sse_backend get_stream fresh) !! "content-length"
  = None /\
  written (handler None sse_backend get_stream fresh)
  = [Bytes [x65; x76]; Bytes [x3a]].
Proof.
  split; [reflexivity|].
  pose proof (handler_relays None sse_backend get_stream fresh eq_refl) as H.
  cbn zeta in H. change (sse_backend (options None get_stream))
    with (Responds
            {| status := 200;
               headers := [("content-length", "12");
                           ("content-type", "text/event-stream")];
               body := Some (Read [x65; x76] (Read [x3a] Eof)) |}) in H.
  cbv iota in H.
  destruct (H [[x65; x76]; [x3a]] eq_refl) as (_ & Hk & Hx & Hw & _).
  split; [exact (Hk "content-type" eq_refl)|].
  split; [exact (Hx "content-length" eq_refl)|].
  exact Hw.
Defined.

(** A name the backend's headers yield twice keeps its last value. *)
Lemma repeated_header_keeps_last :
  res_headers (handler None cookie_backend get_stream fresh) !! "set-cookie"
  = Some "b=2".
Proof. vm_compute. reflexivity. Qed.

(** C10, at the failing input: the backend answers with two [set-cookie]
    headers, which its headers yield one by one.  The handler passes both to
    [res.setHeader], the second call replaces the first, and the response to
    the client carries [b=2] alone: the header [set-cookie: a=1] is not
    forwarded, although it is neither [content-encoding] nor
    [content-length]. *)
Lemma first_set_cookie_not_forwarded :
  let res := handler None cookie_backend get_stream fresh in
  cookie_backend (options None get_stream)
  = Responds {| status := 200;
                headers := [("set-cookie", "a=1"); ("set-cookie", "b=2")];
                body := None |} /\
  excluded "set-cookie" = false /\
  statusCode res = 200 /\ finished res = true /\
  res_headers res = {[ "set-cookie" := "b=2" ]} /\
  (forall k, res_headers res !! k <> Some "a=1").
Proof.
  cbn zeta.
  assert (H : res_headers (handler None cookie_backend get_stream fresh)
              = {[ "set-cookie" := "b=2" ]}) by (vm_compute; reflexivity).
  repeat split; try reflexivity; try exact H.
  intros k. rewrite H. destruct (decide (k = "set-cookie")) as [->|Hne].
  - rewrite lookup_singleton_eq. discriminate.
  - rewrite lookup_singleton_ne by congruence. discriminate.
Qed.

(** A rejected [read()] before the first chunk is answered like a failed
    fetch; after a chunk was written the response is left as it is. *)
Lemma read_failure_before_first_chunk (response : Response) (res : ServerResponse) :
  headersSent res = false -> body response = Some ReadFails ->
  let res' := handler None (fun _ => Responds response) get_stream res in
  statusCode res' = 500 /\ written res' = written res ++ [Json proxy_error].
Proof.
  intros Hsent Hbody. unfold handler. rewrite Hbody. cbn [pipe].
  destruct (forward_headers_fields (headers response)
              (res_status (status response) res)) as (_ & F2 & F3 & _).
  cbn in F2, F3. unfold on_error. rewrite F2, Hsent. cbn. rewrite F3.
  split; reflexivity.
Qed.

(** The request the handler forwards for [get_stream]. *)
Lemma get_stream_forwarded :
  options None get_stream
  = {| out_url := "http://localhost:8000/stream/job-1";
       out_method := "GET";
       out_headers := [("accept", "text/event-stream")];
       out_body := None |}.
Proof. reflexivity. Qed.

End ProxyProofs.


(** ** The job registry *)

Module RegistryProofs.
Import Registry.

Lemma empty_ok : registry_ok empty.
Proof. intros id j H. cbn in H. rewrite lookup_empty in H. discriminate. Qed.

Lemma create_job_ok capacity now k r :
  registry_ok r -> registry_ok (create_job capacity now k r).1.
Proof.
  intros Hr. unfold create_job. destruct (decide _); [exact Hr|].
  intros id j. cbn [fst jobs]. rewrite lookup_insert.
  destruct (decide (next_id r = id)) as [_|_].
  - intros [= <-]. left. split; [reflexivity | constructor].
  - apply Hr.
Qed.

Lemma append_event_ok now id e r :
  registry_ok r -> registry_ok (append_event now id e r).1.
Proof.
  intros Hr. unfold append_event.
  destruct (jobs r !! id) as [j|] eqn:Hj; [|exact Hr].
  destruct (terminal j) eqn:Ht; [exact Hr|].
  intros id' j'. cbn [fst jobs]. rewrite lookup_insert.
  destruct (decide (id = id')) as [_|_]; [|apply Hr].
  intros [= <-]. destruct (Hr id j Hj) as [[_ Hlog] | [Htrue _]]; [|congruence].
  unfold job_ok. cbn [terminal log].
  destruct (is_terminal e) eqn:He.
  - right. split; [reflexivity|]. exists (log j), e. now repeat split.
  - left. split; [reflexivity|]. apply Forall_app. split; [exact Hlog|].
    now apply Forall_singleton.
Qed.

Lemma reap_ok grace now r : registry_ok r -> registry_ok (reap grace now r).
Proof.
  intros Hr id j. unfold reap. cbn [jobs]. rewrite map_lookup_filter_Some.
  intros [Hj _]. exact (Hr id j Hj).
Qed.

Lemma step_ok capacity grace r o :
  registry_ok r -> registry_ok (step capacity grace r o).
Proof.
  destruct o; cbn [step];
    [apply create_job_ok | apply append_event_ok | apply reap_ok].
Qed.

Lemma run_ok capacity grace ops : registry_ok (run capacity grace ops).
Proof.
  unfold run. generalize empty_ok. generalize empty.
  induction ops as [|o ops IH]; intros r Hr; [exact Hr|].
  cbn [fold_left]. apply IH, step_ok, Hr.
Qed.

Lemma terminal_events_none (l : list Event) :
  Forall (fun e => is_terminal e = false) l -> terminal_events l = 0%nat.
Proof.
  unfold terminal_events. induction 1 as [|e l He Hl IH]; [reflexivity|].
  rewrite filter_cons_False by congruence. exact IH.
Qed.

Lemma job_ok_count (j : Job) : job_ok j -> (terminal_events (log j) <= 1)%nat.
Proof.
  intros [[_ Hlog] | [_ (l & e & -> & He & Hl)]].
  - rewrite (terminal_events_none _ Hlog). lia.
  - pose proof (terminal_events_none l Hl) as H0. unfold terminal_events in *.
    rewrite filter_app, length_app, H0.
    rewrite filter_cons_True by exact He. cbn. lia.
Qed.

Lemma job_ok_flag (j : Job) (t : Event) :
  job_ok j -> t ∈ log j -> is_terminal t = true -> terminal j = true.
Proof.
  intros [[_ Hlog] | [Ht _]] Hin Hterm; [|exact Ht].
  rewrite Forall_forall in Hlog. specialize (Hlog t Hin). congruence.
Qed.

Lemma job_ok_last (j : Job) (l1 l2 : list Event) (t : Event) :
  job_ok j -> log j = l1 ++ t :: l2 -> is_terminal t = true -> l2 = [].
Proof.
  intros [[_ Hlog] | [_ (l & e & Hl & He & Hnon)]] Hsplit Hterm.
  - rewrite Hsplit in Hlog. apply Forall_app in Hlog as [_ Hlog].
    inversion Hlog; congruence.
  - rewrite Hl in Hsplit. destruct l2 as [|x l2 _] using rev_ind; [reflexivity|].
    exfalso. change (l1 ++ t :: l2 ++ [x]) with (l1 ++ (t :: l2) ++ [x]) in Hsplit.
    rewrite app_assoc in Hsplit. apply app_inj_tail in Hsplit as [-> _].
    apply Forall_app in Hnon as [_ Hnon]. inversion Hnon; congruence.
Qed.

(** C4. In a registry reached by any run of create, append and reap
    operations, the event log of every job holds at most one terminal
    event, nothing follows it in the log, and once the log holds a terminal
    event every further [append_event] on the job fails with
    [JobAlreadyTerminal] and returns the registry, and so the log,
    unchanged. *)
Theorem at_most_one_terminal_event (capacity : nat) (grace : Z) (ops : list Op)
    (id : nat) (j : Job) :
  jobs (run capacity grace ops) !! id = Some j ->
  (terminal_events (log j) <= 1)%nat /\
  (forall l1 l2 t, log j = l1 ++ t :: l2 -> is_terminal t = true -> l2 = []) /\
  (forall t, t ∈ log j -> is_terminal t = true ->
     forall now e,
       append_event now id e (run capacity grace ops)
       = (run capacity grace ops, inl JobAlreadyTerminal)).
Proof.
  intros Hj. pose proof (run_ok capacity grace ops id j Hj) as Hok.
  split; [now apply job_ok_count|].
  split; [intros l1 l2 t; now apply job_ok_last|].
  intros t Hin Hterm now e. unfold append_event.
  rewrite Hj, (job_ok_flag j t Hok Hin Hterm). reflexivity.
Qed.

Lemma at_most_one_terminal_event_witness :
  jobs (run 8 300 finished_run) !! 0%nat
  = Some {| kind := generate; status := done; created := 0;
            log := [text_chunk "Retrieval"; done_event "ok"];
            terminal := true; completed := Some 2 |} /\
  append_event 3 0 (error_event "late") (run 8 300 finished_run)
  = (run 8 300 finished_run, inl JobAlreadyTerminal).
Proof.
  assert (H : jobs (run 8 300 finished_run) !! 0%nat
              = Some {| kind := generate; status := done; created := 0;
                        log := [text_chunk "Retrieval"; done_event "ok"];
                        terminal := true; completed := Some 2 |})
    by (vm_compute; reflexivity).
  split; [exact H|].
  destruct (at_most_one_terminal_event 8 300 finished_run 0 _ H) as (_ & _ & Happ).
  apply (Happ (done_event "ok")); [|reflexivity].
  cbn. apply list_elem_of_In. cbn. tauto.
Defined.

End RegistryProofs.


(** ** The page over whole runs *)

Module SessionProofs.
Import Client Session ClientProofs.

Lemma same_value_eq (a b : jsval) : same_value a b = true -> a = b.
Proof.
  destruct a, b; cbn; try discriminate; try reflexivity; intros H.
  - f_equal. now apply Bool.eqb_prop.
  - f_equal. now apply Z.eqb_eq.
  - f_equal. now apply String.eqb_eq.
Qed.

(** Sources after [close] and [new EventSource]. *)
Lemma sources_close (e i : nat) (st : State) :
  sources (close e st) !! i =
  if decide (e = i)
  then (fun s => {| url := url s; channel := channel s; closed := true |})
         <$> sources st !! i
  else sources st !! i.
Proof.
  unfold close, set_sources. cbn [sources]. rewrite list_lookup_alter.
  destruct (decide (e = i)) as [->|_]; reflexivity.
Qed.

Lemma open_on_close (c : Channel) (e i : nat) (st : State) :
  open_on c i (close e st) <-> e <> i /\ open_on c i st.
Proof.
  unfold open_on. rewrite sources_close. destruct (decide (e = i)) as [->|Hne].
  - split.
    + intros (s & Hs & Hc & _). destruct (sources st !! i); cbn in Hs;
        [|discriminate]. injection Hs as <-. discriminate Hc.
    + intros [Hne _]. congruence.
  - split; [intros H; split; assumption | intros [_ H]; exact H].
Qed.

Lemma upload_source_close (e i : nat) (st : State) :
  upload_source i st -> upload_source i (close e st).
Proof.
  intros (s & Hs & Hc). unfold upload_source. rewrite sources_close.
  destruct (decide (e = i)); rewrite Hs; cbn; eauto.
Qed.

Lemma open_on_close_upload (e i : nat) (st : State) :
  upload_source e st ->
  open_on GenerateStream i (close e st) <-> open_on GenerateStream i st.
Proof.
  intros (s & Hs & Hc). rewrite open_on_close. split; [tauto|].
  intros H. split; [|exact H]. intros ->.
  destruct H as (s' & Hs' & _ & Hc'). congruence.
Qed.

Lemma sources_new (u : string) (c : Channel) (i : nat) (s : EventSource)
    (st : State) :
  sources (new_EventSource u c st).2 !! i = Some s <->
  sources st !! i = Some s \/
  (i = length (sources st) /\ s = {| url := u; channel := c; closed := false |}).
Proof.
  unfold new_EventSource, set_sources. cbn [snd sources].
  rewrite lookup_snoc_Some. split.
  - intros [[_ H] | [-> <-]]; [left; exact H | right; split; reflexivity].
  - intros [H | [-> ->]]; [left | right; split; reflexivity].
    split; [|exact H]. apply lookup_lt_Some in H. exact H.
Qed.

Lemma open_on_new (c c' : Channel) (u : string) (i : nat) (st : State) :
  open_on c i (new_EventSource u c' st).2 <->
  open_on c i st \/ (i = length (sources st) /\ c = c').
Proof.
  unfold open_on. split.
  - intros (s & Hs & Hc & Hch). apply sources_new in Hs as [Hs | [-> ->]].
    + left. eauto.
    + right. split; [reflexivity | symmetry; exact Hch].
  - intros [(s & Hs & Hc & Hch) | [-> ->]].
    + exists s. split; [apply sources_new; left; exact Hs | split; assumption].
    + eexists. split; [apply sources_new; right; split; reflexivity|].
      split; reflexivity.
Qed.

Lemma upload_source_new (u : string) (c : Channel) (i : nat) (st : State) :
  upload_source i st -> upload_source i (new_EventSource u c st).2.
Proof.
  intros (s & Hs & Hc). exists s. split; [|exact Hc].
  apply sources_new. left. exact Hs.
Qed.

(** [stream_ok] reads the ref, the cleanup, the job id and which generation
    streams are open. *)
Lemma stream_ok_same (st st' : State) :
  sseRef st' = sseRef st -> cleanup st' = cleanup st -> jobId st' = jobId st ->
  (forall i, open_on GenerateStream i st' -> open_on GenerateStream i st) ->
  stream_ok st -> stream_ok st'.
Proof.
  unfold stream_ok. intros -> -> -> Hopen (Ha & Hb & Hc).
  split; [exact Ha|]. split; [|exact Hc].
  intros i Hi. apply Hb, Hopen, Hi.
Qed.

Lemma upload_refs_ok_same (st st' : State) :
  sources st' = sources st -> uploadSseRef st' = uploadSseRef st ->
  timers st' = timers st -> upload_refs_ok st -> upload_refs_ok st'.
Proof.
  unfold upload_refs_ok, upload_source. intros -> -> ->. trivial.
Qed.

(** The effect restores the agreement. *)
Lemma jobId_effect_ok (st : State) :
  effect_ready st -> upload_refs_ok st ->
  stream_ok (jobId_effect st) /\ upload_refs_ok (jobId_effect st).
Proof.
  intros [Hopen Hnone] [Hu Ht]. unfold jobId_effect.
  set (S1 := match cleanup st with
             | Some ev => set_sseRef None (close ev st)
             | None => st
             end).
  assert (H1 : sseRef S1 = None /\
               (forall i, ~ open_on GenerateStream i S1) /\
               jobId S1 = jobId st /\ upload_refs_ok S1).
  { subst S1. destruct (cleanup st) as [e|] eqn:Hc.
    - split; [reflexivity|]. split; [|split; [reflexivity|]].
      + intros i Hi. change (open_on GenerateStream i (close e st)) in Hi.
        apply open_on_close in Hi as [Hne Hi]. apply Hopen in Hi. congruence.
      + split.
        * intros i Hi. apply (upload_source_close e i st), Hu, Hi.
        * intros ms ev Hin. apply (upload_source_close e ev st), (Ht ms), Hin.
    - split; [now apply Hnone|]. split; [|split; [reflexivity|split; assumption]].
      intros i Hi. apply Hopen in Hi. discriminate. }
  clearbody S1. destruct H1 as (Hr & Hno & Hj & Hu1 & Ht1).
  destruct (js_truthy (jobId S1)) eqn:Htruthy; cbn [negb].
  - rewrite Hr. unfold new_EventSource. cbv iota beta.
    set (u := "/api/proxy/stream/" +:+ js_to_string (jobId S1)).
    split; [split; [reflexivity|split]|split].
    + intros i. cbn [sseRef set_cleanup set_sseRef].
      change (open_on GenerateStream i (new_EventSource u GenerateStream S1).2
              -> Some (length (sources S1)) = Some i).
      rewrite open_on_new.
      intros [Hi | [-> _]]; [destruct (Hno i Hi) | reflexivity].
    + cbn [jobId sseRef set_cleanup set_sseRef set_sources]. rewrite Htruthy.
      split; [intros _; eexists; reflexivity | reflexivity].
    + intros i Hi.
      apply (upload_source_new u GenerateStream i S1), Hu1, Hi.
    + intros ms ev Hin.
      apply (upload_source_new u GenerateStream ev S1), (Ht1 ms), Hin.
  - split; [split; [symmetry; exact Hr|split]|split; assumption].
    + intros i Hi. destruct (Hno i Hi).
    + cbn [jobId sseRef set_cleanup]. rewrite Htruthy, Hr. split.
      * discriminate.
      * intros [x Hx]. discriminate.
Qed.

Ltac unchanged H :=
  first
    [ exact H
    | apply (stream_ok_same _ _ eq_refl eq_refl eq_refl (fun _ Hi => Hi) H)
    | apply (upload_refs_ok_same _ _ eq_refl eq_refl eq_refl H) ].

Lemma send_resume_ok (p : string) (r : FetchResult) (st : State) :
  stream_ok st -> upload_refs_ok st ->
  stream_ok (send_resume p r st) /\ upload_refs_ok (send_resume p r st).
Proof.
  intros Hs Hu. unfold send_resume.
  destruct r as [|ok [data|]]; try (split; assumption).
  destruct (js_get data "job_id") as [job_id|]; [|split; assumption].
  unfold render. cbn [jobId setPrompt setMessages setJobId].
  destruct (same_value (jobId st) job_id) eqn:Hsame.
  - apply same_value_eq in Hsame. subst job_id. split; unchanged Hs || unchanged Hu.
  - apply jobId_effect_ok; [|unchanged Hu].
    destruct Hs as (Ha & Hb & _). split.
    + intros i Hi. change (open_on GenerateStream i st) in Hi.
      apply Hb in Hi. cbn [cleanup setPrompt setMessages setJobId]. congruence.
    + cbn [cleanup sseRef setPrompt setMessages setJobId]. congruence.
Qed.

Lemma on_done_ok (ev : nat) (d : FrameData) (st : State) :
  open_on GenerateStream ev st -> stream_ok st -> upload_refs_ok st ->
  stream_ok (on_done ev d st) /\ upload_refs_ok (on_done ev d st).
Proof.
  intros Hopen Hs [Hu Ht]. unfold on_done, render.
  cbn [jobId setJobId]. destruct Hs as (Ha & Hb & Hc).
  pose proof (Hb ev Hopen) as Href.
  destruct (same_value (jobId st) JNull) eqn:Hsame.
  - apply same_value_eq in Hsame.
    assert (Hsome : is_Some (sseRef st)) by (rewrite Href; eauto).
    apply Hc in Hsome. rewrite Hsame in Hsome. discriminate.
  - apply jobId_effect_ok.
    + split.
      * intros i Hi. change (open_on GenerateStream i (close ev st)) in Hi.
        apply open_on_close in Hi as [Hne Hi]. apply Hb in Hi. congruence.
      * cbn [cleanup setJobId set_sseRef close set_sources]. congruence.
    + split.
      * intros i Hi. apply (upload_source_close ev i st), Hu, Hi.
      * intros ms e Hin. apply (upload_source_close ev e st), (Ht ms), Hin.
Qed.

(** Closing an upload-progress stream and clearing its ref. *)
Lemma close_upload_ok (ev : nat) (st st' : State) :
  upload_source ev st ->
  sources st' = sources (close ev st) -> sseRef st' = sseRef st ->
  cleanup st' = cleanup st -> jobId st' = jobId st ->
  stream_ok st -> stream_ok st'.
Proof.
  intros Hev Hsrc Hr Hc Hj Hs.
  apply (stream_ok_same st st' Hr Hc Hj); [|exact Hs].
  intros i. unfold open_on. rewrite Hsrc.
  apply (open_on_close_upload ev i st Hev).
Qed.

Lemma sources_close_twice (ev : nat) (st st' : State) :
  sources st' = sources (close ev st) ->
  sources (close ev st') = sources (close ev st).
Proof.
  intros H. apply list_eq. intros i. rewrite sources_close, H, sources_close.
  destruct (decide (ev = i)); [|reflexivity].
  destruct (sources st !! i); reflexivity.
Qed.

(** The browser closing a stream. *)
Lemma fail_connection_ok (ev : nat) (st : State) :
  stream_ok st -> upload_refs_ok st ->
  stream_ok (fail_connection ev st) /\
  upload_refs_ok (fail_connection ev st).
Proof.
  intros Hs Hu. unfold fail_connection.
  destruct (sources st !! ev) as [s|] eqn:Hsrc; [|split; assumption].
  destruct (closed s) eqn:Hclosed; [split; assumption|].
  destruct (channel s) eqn:Hch.
  - rewrite run_generate_listeners. cbn [event String.eqb Ascii.eqb Bool.eqb].
    split.
    + apply (stream_ok_same st); try reflexivity; [|exact Hs].
      intros i Hi. apply open_on_close in Hi. tauto.
    + destruct Hu as [Hu Ht]. split.
      * intros i Hi. apply (upload_source_close ev i st), Hu, Hi.
      * intros ms e Hin. apply (upload_source_close ev e st), (Ht ms), Hin.
  - assert (Hev : upload_source ev st) by (exists s; split; assumption).
    rewrite run_upload_listeners. cbn [event String.eqb Ascii.eqb Bool.eqb].
    unfold on_upload_error. cbn [data upload_error_message].
    split.
    + apply (close_upload_ok ev st _ Hev); try reflexivity; [|exact Hs].
      apply (sources_close_twice ev st). reflexivity.
    + destruct Hu as [Hu Ht]. split; [discriminate|].
      intros ms e Hin.
      cbn [timers set_uploadSseRef close set_sources setTimeout setUploadProgress] in Hin.
      apply elem_of_app in Hin as [Hin | Hin].
      * apply (upload_source_close ev e _), (upload_source_close ev e _).
        exact (Ht ms e Hin).
      * apply list_elem_of_singleton in Hin. discriminate.
Qed.

Lemma dispatch_ok (ev : nat) (f : Frame) (st : State) :
  stream_ok st -> upload_refs_ok st ->
  stream_ok (dispatch ev f st) /\ upload_refs_ok (dispatch ev f st).
Proof.
  intros Hs Hu. unfold dispatch.
  destruct (sources st !! ev) as [s|] eqn:Hsrc; [|split; assumption].
  destruct (closed s) eqn:Hclosed; [split; assumption|].
  destruct (channel s) eqn:Hch.
  - rewrite run_generate_listeners.
    destruct (String.eqb (event f) "text");
      [unfold on_text; destruct (data f); split; unchanged Hs || unchanged Hu|].
    destruct (String.eqb (event f) "tool");
      [unfold on_tool; destruct (data f); split; unchanged Hs || unchanged Hu|].
    destruct (String.eqb (event f) "citation");
      [unfold on_citation; destruct (data f); split;
       unchanged Hs || unchanged Hu|].
    destruct (String.eqb (event f) "done"); [|split; assumption].
    apply on_done_ok; try assumption. exists s. repeat split; assumption.
  - assert (Hev : upload_source ev st) by (exists s; split; assumption).
    rewrite run_upload_listeners.
    destruct (String.eqb (event f) "progress");
      [unfold on_progress; destruct (data f); split;
       unchanged Hs || unchanged Hu|].
    destruct (String.eqb (event f) "done").
    { unfold on_upload_done. destruct (data f) as [| |p]; try (split; assumption).
      split; [unchanged Hs|]. destruct Hu as [Hu Ht]. split.
      - exact Hu.
      - intros ms e Hin. cbn [timers setTimeout setUploadedFiles setUploadProgress] in Hin.
        apply elem_of_app in Hin as [Hin | Hin]; [exact (Ht ms e Hin)|].
        apply list_elem_of_singleton in Hin. injection Hin as -> ->. exact Hev. }
    destruct (String.eqb (event f) "error"); [|split; assumption].
    unfold on_upload_error. destruct (upload_error_message (data f)) as [msg|];
      [|split; assumption].
    split.
    + apply (close_upload_ok ev st _ Hev); try reflexivity. exact Hs.
    + destruct Hu as [Hu Ht]. split; [discriminate|].
      intros ms e Hin.
      cbn [timers set_uploadSseRef close set_sources setTimeout setUploadProgress] in Hin.
      apply elem_of_app in Hin as [Hin | Hin].
      * apply (upload_source_close ev e _). exact (Ht ms e Hin).
      * apply list_elem_of_singleton in Hin. discriminate.
Qed.

Lemma upload_failed_ok (st : State) :
  stream_ok st -> upload_refs_ok st ->
  stream_ok (upload_failed st) /\ upload_refs_ok (upload_failed st).
Proof.
  intros Hs [Hu Ht]. split; [unchanged Hs|]. split; [exact Hu|].
  intros ms e Hin. cbn [timers upload_failed setTimeout setUploadProgress] in Hin.
  apply elem_of_app in Hin as [Hin | Hin]; [exact (Ht ms e Hin)|].
  apply list_elem_of_singleton in Hin. discriminate.
Qed.

Lemma upload_reply_ok (r : FetchResult) (st : State) :
  stream_ok st -> upload_refs_ok st ->
  stream_ok (upload_reply r st).1 /\ upload_refs_ok (upload_reply r st).1.
Proof.
  intros Hs Hu. unfold upload_reply.
  destruct r as [|[|] [data|]]; try (now apply upload_failed_ok).
  destruct (js_get data "upload_id") as [id|]; [|now apply upload_failed_ok].
  destruct (js_truthy id); [|now apply upload_failed_ok].
  cbn [fst uploadSseRef setUploadProgress].
  destruct (uploadSseRef st) as [cur|] eqn:Hcur.
  - destruct Hu as [Hu Ht]. pose proof (Hu cur Hcur) as Hup. split.
    + apply (close_upload_ok cur st _ Hup); try reflexivity. exact Hs.
    + split.
      * intros i Hi. apply (upload_source_close cur i _), Hu.
        cbn [uploadSseRef close set_sources setUploadProgress] in Hi. congruence.
      * intros ms e Hin. apply (upload_source_close cur e _), (Ht ms), Hin.
  - split; unchanged Hs || unchanged Hu.
Qed.

Lemma upload_listen_ok (uploadId : jsval) (st : State) :
  stream_ok st -> upload_refs_ok st ->
  stream_ok (upload_listen uploadId st) /\ upload_refs_ok (upload_listen uploadId st).
Proof.
  intros Hs [Hu Ht]. unfold upload_listen.
  set (u := "/api/proxy/upload_progress/" +:+ js_to_string uploadId).
  unfold new_EventSource. cbv iota beta. split.
  - apply stream_ok_same with (st := st);
      [reflexivity | reflexivity | reflexivity | | exact Hs].
    intros i. change (open_on GenerateStream i (new_EventSource u UploadStream st).2
                      -> open_on GenerateStream i st).
    rewrite open_on_new. intros [H | [_ H]]; [exact H | discriminate].
  - split.
    + intros i [= <-].
      change (upload_source (length (sources st)) (new_EventSource u UploadStream st).2).
      eexists. split; [apply sources_new; right; split; reflexivity | reflexivity].
    + intros ms e Hin. apply (upload_source_new u UploadStream e st), (Ht ms), Hin.
Qed.

Lemma fire_timer_ok (i : nat) (st : State) :
  stream_ok st -> upload_refs_ok st ->
  stream_ok (fire_timer i st) /\ upload_refs_ok (fire_timer i st).
Proof.
  intros Hs [Hu Ht]. unfold fire_timer.
  destruct (timers st !! i) as [t|] eqn:Hi; [|split; [assumption|split; assumption]].
  assert (Hsub : forall x, x ∈ delete i (timers st) -> x ∈ timers st)
    by (intros x; apply list_elem_of_delete_inv).
  destruct t as [ms|ms ev]; cbn [run_timer].
  - split; [unchanged Hs|]. split; [exact Hu|].
    intros ms' e Hin. apply (Ht ms'), Hsub, Hin.
  - assert (Hev : upload_source ev st).
    { apply (Ht ms). apply list_elem_of_lookup. eauto. }
    split.
    + apply (close_upload_ok ev st _ Hev); try reflexivity. exact Hs.
    + split; [discriminate|].
      intros ms' e Hin. apply (upload_source_close ev e st), (Ht ms'), Hsub, Hin.
Qed.

Lemma perform_ok (a : Action) (st : State) :
  stream_ok st -> upload_refs_ok st ->
  stream_ok (perform st a) /\ upload_refs_ok (perform st a).
Proof.
  intros Hs Hu. destruct a; cbn [perform].
  - split; unchanged Hs || unchanged Hu.
  - split; unchanged Hs || unchanged Hu.
  - unfold send_begin. destruct (negb _); split; unchanged Hs || unchanged Hu.
  - now apply send_resume_ok.
  - now apply dispatch_ok.
  - split; unchanged Hs || unchanged Hu.
  - split; unchanged Hs || unchanged Hu.
  - now apply upload_reply_ok.
  - now apply upload_listen_ok.
  - split; unchanged Hs || unchanged Hu.
  - now apply fire_timer_ok.
  - now apply fail_connection_ok.
Qed.

Lemma initial_ok : stream_ok initial /\ upload_refs_ok initial.
Proof.
  split; [split; [reflexivity|split]|split].
  - intros i (s & Hs & _). discriminate.
  - split; [discriminate | intros [x Hx]; discriminate].
  - discriminate.
  - intros ms ev Hin. cbn in Hin. apply elem_of_nil in Hin. destruct Hin.
Qed.

Lemma reachable_ok (acts : list Action) :
  stream_ok (run acts) /\ upload_refs_ok (run acts).
Proof.
  unfold run. generalize initial_ok. generalize initial.
  induction acts as [|a acts IH]; intros st [Hs Hu]; [split; assumption|].
  cbn [fold_left]. apply IH. now apply perform_ok.
Qed.

(** X1. Whatever the user, the server, the browser and the timers do, in
    whatever order, at most one generation stream is open, and an open one
    is the source the ref holds.  The page shows that it is streaming
    exactly while the ref holds a source, hence whenever a generation
    stream is open; the source the ref holds may be one the browser has
    closed, so the page can show streaming with no stream open. *)
Theorem one_generation_stream (acts : list Action) :
  let st := run acts in
  (forall i j, open_on GenerateStream i st -> open_on GenerateStream j st -> i = j) /\
  (forall i, open_on GenerateStream i st -> sseRef st = Some i) /\
  (statusLabel st = Streaming <-> is_Some (sseRef st)) /\
  ((exists i, open_on GenerateStream i st) -> statusLabel st = Streaming).
Proof.
  cbn zeta. destruct (reachable_ok acts) as [(Ha & Hb & Hc) _].
  assert (Hl : statusLabel (run acts) = Streaming <-> is_Some (sseRef (run acts))).
  { rewrite <- Hc. unfold statusLabel.
    destruct (js_truthy (jobId (run acts))); split; congruence. }
  split; [|split; [exact Hb|split; [exact Hl|]]].
  - intros i j Hi Hj. apply Hb in Hi, Hj. congruence.
  - intros [i Hi]. apply Hl. rewrite (Hb i Hi). eauto.
Qed.

End SessionProofs.

(** ** More about the generation stream *)

Module StreamProofs.
Import Client Session ClientProofs SessionProofs.

Lemma dispatch_closed (ev : nat) (f : Frame) (st : State) :
  is_open ev st = false -> dispatch ev f st = st.
Proof.
  unfold is_open, dispatch. destruct (sources st !! ev) as [s|]; [|reflexivity].
  destruct (closed s); [reflexivity | discriminate].
Qed.

Lemma deliver_closed (ev : nat) (fs : list Frame) (st : State) :
  is_open ev st = false -> deliver ev fs st = st.
Proof.
  intros H. unfold deliver. induction fs as [|f fs IH]; [reflexivity|].
  cbn [fold_left]. rewrite (dispatch_closed ev f st H). exact IH.
Qed.

(** X2. A [done] frame ends the stream for good: the source is closed, the
    ref and the job id are cleared, the page shows Ready, and every frame
    that follows it on that source is ignored. *)
Theorem done_ends_delivery (ev : nat) (d : FrameData) (fs : list Frame)
    (st : State) :
  open_on GenerateStream ev st ->
  let st' := dispatch ev {| event := "done"; data := d |} st in
  deliver ev ({| event := "done"; data := d |} :: fs) st = st' /\
  is_open ev st' = false /\ sseRef st' = None /\ jobId st' = JNull /\
  statusLabel st' = Ready /\ messages st' = messages st.
Proof.
  intros Hopen st'.
  destruct (done_frame_closes_stream ev d st Hopen) as (Hc & Hr & Hj & Hl).
  fold st' in Hc, Hr, Hj, Hl.
  split; [|repeat split; try assumption].
  - unfold deliver. cbn [fold_left]. fold st'.
    apply (deliver_closed ev fs st' Hc).
  - subst st'. rewrite (dispatch_open _ _ _ _ Hopen), run_generate_listeners.
    cbn [event]. change (String.eqb "done" "text") with false.
    change (String.eqb "done" "tool") with false.
    change (String.eqb "done" "citation") with false.
    change (String.eqb "done" "done") with true. cbv iota.
    unfold on_done, render. destruct (same_value _ _); [reflexivity|].
    unfold jobId_effect.
    cbn [cleanup jobId setJobId set_sseRef close set_sources].
    destruct (cleanup st); reflexivity.
Qed.

Lemma done_ends_delivery_witness :
  open_on GenerateStream 0 (asked "What is RAG?" "job-1") /\
  deliver 0 [frame "done" ∅; text_frame "late"] (asked "What is RAG?" "job-1")
  = dispatch 0 (frame "done" ∅) (asked "What is RAG?" "job-1").
Proof.
  split; [exact asked_open|].
  exact (proj1 (done_ends_delivery 0 (Payload ∅) [text_frame "late"]
                  (asked "What is RAG?" "job-1") asked_open)).
Defined.

Lemma frame_effect_fields (f : Frame) (m : Message) (t : string) :
  text m = JStr t ->
  role (frame_effect f m) = role m /\
  text (frame_effect f m) = JStr (t +:+ default "" (fragment f)) /\
  default [] (citations (frame_effect f m))
  = default [] (citations m) ++ option_list (cited f).
Proof.
  intros Ht. split; [|split; [now apply frame_effect_text|]];
    unfold frame_effect, cited;
    destruct (data f) as [| |p]; try (cbn; now rewrite ?app_nil_r);
    destruct (String.eqb (event f) "text"); try (cbn; now rewrite ?app_nil_r);
    destruct (String.eqb (event f) "tool"); try (cbn; now rewrite ?app_nil_r);
    destruct (String.eqb (event f) "citation"); cbn; now rewrite ?app_nil_r.
Qed.

Lemma frames_effect_fields (fs : list Frame) (m : Message) (t : string) :
  text m = JStr t ->
  let m' := fold_left (fun acc f => frame_effect f acc) fs m in
  role m' = role m /\
  text m' = JStr (t +:+ concat_all (omap fragment fs)) /\
  default [] (citations m') = default [] (citations m) ++ omap cited fs.
Proof.
  revert m t. induction fs as [|f fs IH]; intros m t Ht; cbn zeta.
  - cbn. now rewrite append_empty_r, app_nil_r.
  - cbn [fold_left].
    destruct (frame_effect_fields f m t Ht) as (Hr & Hx & Hc).
    destruct (IH _ _ Hx) as (Hr' & Hx' & Hc'). cbn zeta in Hr', Hx', Hc'.
    rewrite Hr', Hx', Hc', Hr, Hc, append_assoc, <- app_assoc.
    change (omap fragment (f :: fs))
      with (match fragment f with
            | Some y => y :: omap fragment fs
            | None => omap fragment fs
            end).
    change (omap cited (f :: fs))
      with (match cited f with
            | Some y => y :: omap cited fs
            | None => omap cited fs
            end).
    destruct (fragment f), (cited f); repeat split.
Qed.

(** X3. However text, tool and citation frames are interleaved on an open
    generation stream, short of [done], the most recent AI message ends up
    with its text extended by the fragments of the text frames and its
    citations extended by the payloads of the citation frames, both in
    delivery order; tool frames and frames under other names contribute to
    neither. *)
Theorem interleaved_frames_accumulate (ev : nat) (fs : list Frame) (st : State)
    (m : Message) (t : string) :
  open_on GenerateStream ev st ->
  Forall (fun f => event f <> "done") fs ->
  last_ai (messages st) = Some m ->
  text m = JStr t ->
  exists m',
    last_ai (messages (deliver ev fs st)) = Some m' /\
    role m' = ai /\
    text m' = JStr (t +:+ concat_all (omap fragment fs)) /\
    default [] (citations m') = default [] (citations m) ++ omap cited fs.
Proof.
  intros Hopen Hfs Hm Ht. eexists.
  split; [exact (deliver_last_ai _ _ _ _ Hopen Hfs Hm)|].
  destruct (frames_effect_fields fs m t Ht) as (Hr & Hx & Hc).
  cbn zeta in Hr, Hx, Hc. rewrite Hr, Hx, Hc.
  destruct (last_ai_split _ _ Hm) as (_ & _ & _ & Hai & _).
  unfold is_ai in Hai. destruct (role m); try discriminate. repeat split.
Qed.

Lemma interleaved_frames_accumulate_witness :
  open_on GenerateStream 0 (asked "What is RAG?" "job-1") /\
  exists m',
    last_ai (messages
      (deliver 0
         [frame "tool" {[ "step" := JStr "Searching documents" ]};
          citation_frame {[ "title" := JStr "intro.pdf" ]};
          text_frame "Retrieval"; frame "tool" {[ "step" := JStr "Generating" ]};
          text_frame "-augmented"]
         (asked "What is RAG?" "job-1"))) = Some m' /\
    text m' = JStr "Retrieval-augmented".
Proof.
  split; [exact asked_open|].
  destruct (interleaved_frames_accumulate 0
              [frame "tool" {[ "step" := JStr "Searching documents" ]};
               citation_frame {[ "title" := JStr "intro.pdf" ]};
               text_frame "Retrieval"; frame "tool" {[ "step" := JStr "Generating" ]};
               text_frame "-augmented"]
              (asked "What is RAG?" "job-1")
              {| role := ai; text := JStr ""; citations := Some [] |} "")
    as (m' & Hm' & _ & Ht & _).
  - exact asked_open.
  - repeat constructor; discriminate.
  - vm_compute. reflexivity.
  - reflexivity.
  - exists m'. split; [exact Hm' | exact Ht].
Defined.

(** X21. No listener is registered for [error] on the generation stream.
    When the browser fails its connection, as it does when the stream
    request is answered with a status other than 200, the source is closed
    and nothing else happens: the job id and the ref stay set, the page
    goes on showing that it is streaming, the conversation is as it was,
    and no frame is delivered any more. *)
Theorem failed_stream_stays_streaming (ev : nat) (st : State) :
  open_on GenerateStream ev st ->
  let st' := fail_connection ev st in
  st' = close ev st /\ is_open ev st' = false /\
  jobId st' = jobId st /\ sseRef st' = sseRef st /\
  messages st' = messages st /\ statusLabel st' = statusLabel st /\
  (forall fs, deliver ev fs st' = st').
Proof.
  intros (s & Hs & Hc & Hch). cbn zeta.
  assert (E : fail_connection ev st = close ev st).
  { unfold fail_connection. rewrite Hs, Hc, Hch, run_generate_listeners.
    reflexivity. }
  rewrite E.
  assert (Hclosed : is_open ev (close ev st) = false).
  { unfold is_open. rewrite sources_close.
    destruct (decide (ev = ev)); [|congruence]. rewrite Hs. reflexivity. }
  repeat split; try reflexivity; [exact Hclosed|].
  intros fs. now apply deliver_closed.
Qed.

Lemma failed_stream_stays_streaming_witness :
  open_on GenerateStream 0 (asked "What is RAG?" "job-1") /\
  statusLabel (fail_connection 0 (asked "What is RAG?" "job-1")) = Streaming /\
  is_open 0 (fail_connection 0 (asked "What is RAG?" "job-1")) = false.
Proof.
  split; [exact asked_open|].
  destruct (failed_stream_stays_streaming 0 (asked "What is RAG?" "job-1")
              asked_open) as (_ & Hc & _ & _ & _ & Hl & _).
  split; [|exact Hc]. rewrite Hl. vm_compute. reflexivity.
Defined.

End StreamProofs.

(** ** [send] *)

Module SendProofs.
Import Client Session ClientProofs SessionProofs.

(** The effect leaves the conversation, the prompt and the request log
    alone. *)
Lemma jobId_effect_frame (st : State) :
  messages (jobId_effect st) = messages st /\
  prompt (jobId_effect st) = prompt st /\
  requests (jobId_effect st) = requests st /\
  jobId (jobId_effect st) = jobId st.
Proof.
  unfold jobId_effect.
  destruct (cleanup st); cbn [jobId set_sseRef close set_sources];
    destruct (js_truthy (jobId st)); cbn [negb]; try (repeat split; reflexivity);
    cbn [sseRef set_sseRef close set_sources];
    try destruct (sseRef st); repeat split; reflexivity.
Qed.

Lemma length_sources_close (e : nat) (st : State) :
  length (sources (close e st)) = length (sources st).
Proof. unfold close, set_sources. cbn [sources]. apply length_alter. Qed.

(** A whole [send] as two steps of a run. *)
Lemma send_as_steps (r : FetchResult) (st : State) :
  ~ blank (prompt st) ->
  send r st = perform (perform st SendClicked) (SendReplied (prompt st) r).
Proof.
  intros Hb. unfold send. cbn [perform].
  rewrite (send_begin_posts st Hb). reflexivity.
Qed.

Lemma send_stream_ok (r : FetchResult) (acts : list Action) :
  ~ blank (prompt (run acts)) -> stream_ok (send r (run acts)).
Proof.
  intros Hb. rewrite (send_as_steps r _ Hb).
  destruct (reachable_ok acts) as [Hs Hu].
  destruct (perform_ok SendClicked _ Hs Hu) as [Hs1 Hu1].
  exact (proj1 (perform_ok (SendReplied _ r) _ Hs1 Hu1)).
Qed.

Lemma send_replied (ok : bool) (data job_id : jsval) (st : State) :
  ~ blank (prompt st) -> js_get data "job_id" = Some job_id ->
  let st' := send (Replied ok (Some data)) st in
  messages st' = messages st ++ exchange (prompt st) /\
  prompt st' = "" /\ jobId st' = job_id /\
  requests st' = requests st ++ [generate_request (prompt st)].
Proof.
  intros Hb Hj. cbn zeta. unfold send. rewrite (send_begin_posts st Hb).
  unfold send_resume. rewrite Hj. unfold render.
  destruct (same_value _ _); [repeat split; reflexivity|].
  match goal with |- context [jobId_effect ?x] =>
    destruct (jobId_effect_frame x) as (Hm & Hp & Hr & Hi) end.
  rewrite Hm, Hp, Hr, Hi. repeat split; reflexivity.
Qed.

(** X4. From any state the page can reach, sending a prompt that is not
    blank and getting back a truthy job id other than the current one
    records the POST of that prompt, appends the user message and an empty
    AI message, clears the prompt input, sets the job id, and opens a new
    EventSource on [/api/proxy/stream/<job id>], which from then on is the
    only open generation stream. *)
Theorem send_opens_stream (acts : list Action) (ok : bool) (data job_id : jsval) :
  let st := run acts in
  ~ blank (prompt st) ->
  js_get data "job_id" = Some job_id ->
  js_truthy job_id = true ->
  same_value (jobId st) job_id = false ->
  let st' := send (Replied ok (Some data)) st in
  messages st' = messages st ++ exchange (prompt st) /\
  prompt st' = "" /\ jobId st' = job_id /\
  requests st' = requests st ++ [generate_request (prompt st)] /\
  sources st' !! length (sources st)
  = Some {| url := "/api/proxy/stream/" +:+ js_to_string job_id;
            channel := GenerateStream; closed := false |} /\
  (forall i, open_on GenerateStream i st' <-> i = length (sources st)).
Proof.
  intros st Hb Hj Ht Hsame st'.
  destruct (send_replied ok data job_id st Hb Hj) as (Hm & Hp & Hi & Hr).
  fold st' in Hm, Hp, Hi, Hr. repeat (split; [assumption|]).
  assert (Href : sseRef st' = Some (length (sources st)) /\
          sources st' !! length (sources st)
          = Some {| url := "/api/proxy/stream/" +:+ js_to_string job_id;
                    channel := GenerateStream; closed := false |}).
  { subst st'. unfold send. rewrite (send_begin_posts st Hb).
    unfold send_resume. rewrite Hj. unfold render.
    cbn [jobId setPrompt setMessages setJobId fetch]. rewrite Hsame.
    destruct (reachable_ok acts) as [(Hc & _ & _) _]. fold st in Hc.
    unfold jobId_effect. cbn [cleanup setPrompt setMessages setJobId fetch].
    destruct (cleanup st) as [e|] eqn:Hcl.
    - cbn [sseRef jobId set_sseRef close set_sources setPrompt setMessages
           setJobId fetch].
      rewrite Ht. cbn [negb]. unfold new_EventSource. cbv iota beta.
      cbn [sseRef sources jobId set_cleanup set_sseRef set_sources close
           setPrompt setMessages setJobId fetch].
      rewrite length_alter. split; [reflexivity|].
      rewrite <- (length_alter
                    (fun s => {| url := url s; channel := channel s; closed := true |})
                    (sources st) e) at 1.
      apply list_lookup_middle. reflexivity.
    - cbn [sseRef jobId setPrompt setMessages setJobId fetch].
      rewrite Ht, <- Hc. cbn [negb]. unfold new_EventSource. cbv iota beta.
      cbn [sseRef sources jobId set_cleanup set_sseRef set_sources
           setPrompt setMessages setJobId fetch].
      split; [reflexivity|]. apply list_lookup_middle. reflexivity. }
  destruct Href as [Href Hsrc]. split; [exact Hsrc|].
  intros i. destruct (send_stream_ok (Replied ok (Some data)) acts Hb)
    as (_ & Hopen & _).
  fold st st' in Hopen. split.
  - intros Ho. apply Hopen in Ho. congruence.
  - intros ->. eexists. split; [exact Hsrc|]. split; reflexivity.
Qed.

Lemma send_opens_stream_witness :
  ~ blank (prompt (run [Typed "What is RAG?"])) /\
  sources (send (Replied true (Some (JObj {[ "job_id" := JStr "job-1" ]})))
             (run [Typed "What is RAG?"])) !! 0%nat
  = Some {| url := "/api/proxy/stream/job-1"; channel := GenerateStream;
            closed := false |}.
Proof.
  assert (Hb : ~ blank (prompt (run [Typed "What is RAG?"]))).
  { intros H. inversion H as [|c l Hc Hl]; subst. discriminate Hc. }
  split; [exact Hb|].
  assert (Hj : js_get (JObj {[ "job_id" := JStr "job-1" ]}) "job_id"
               = Some (JStr "job-1")) by (vm_compute; reflexivity).
  destruct (send_opens_stream [Typed "What is RAG?"] true
              (JObj {[ "job_id" := JStr "job-1" ]}) (JStr "job-1")
              Hb Hj eq_refl eq_refl) as (_ & _ & _ & _ & Hsrc & _).
  exact Hsrc.
Defined.

(** X5. When the request of [send] is rejected, or its reply is not JSON,
    or is [null], the call stops there: the POST is on record, but nothing
    is appended to the conversation, the prompt stays in the input, and the
    job id, the streams and the ref are as they were. *)
Theorem send_failure_keeps_prompt (r : FetchResult) (st : State) :
  ~ blank (prompt st) -> unusable r ->
  let st' := send r st in
  st' = fetch (generate_request (prompt st)) st /\
  messages st' = messages st /\ prompt st' = prompt st /\
  jobId st' = jobId st /\ sources st' = sources st /\ sseRef st' = sseRef st.
Proof.
  intros Hb Hr. cbn zeta. unfold send. rewrite (send_begin_posts st Hb).
  assert (H : send_resume (prompt st) r (fetch (generate_request (prompt st)) st)
              = fetch (generate_request (prompt st)) st).
  { unfold send_resume.
    destruct Hr as [-> | [[ok ->] | (ok & data & -> & Hd)]]; try reflexivity.
    rewrite Hd. reflexivity. }
  rewrite H. repeat split; reflexivity.
Qed.

Lemma send_failure_keeps_prompt_witness :
  ~ blank (prompt (setPrompt "What is RAG?" initial)) /\
  unusable (Replied false (Some JNull)) /\
  prompt (send (Replied false (Some JNull)) (setPrompt "What is RAG?" initial))
  = "What is RAG?".
Proof.
  assert (Hb : ~ blank (prompt (setPrompt "What is RAG?" initial))).
  { intros H. inversion H as [|c l Hc Hl]; subst. discriminate Hc. }
  assert (Hu : unusable (Replied false (Some JNull))).
  { right. right. exists false, JNull. split; reflexivity. }
  split; [exact Hb|]. split; [exact Hu|].
  destruct (send_failure_keeps_prompt (Replied false (Some JNull))
              (setPrompt "What is RAG?" initial) Hb Hu) as (_ & _ & Hp & _).
  exact Hp.
Defined.

(** X6. When the reply to [send] carries no usable job id (the field is
    missing, or its value is falsy), the exchange is appended and the
    prompt cleared all the same, but no EventSource is constructed: no
    generation stream is open afterwards, the ref is empty and the page
    shows Ready, so the empty AI message is never filled. *)
Theorem send_without_job_id (acts : list Action) (ok : bool)
    (data job_id : jsval) :
  let st := run acts in
  ~ blank (prompt st) ->
  js_get data "job_id" = Some job_id ->
  js_truthy job_id = false ->
  let st' := send (Replied ok (Some data)) st in
  messages st' = messages st ++ exchange (prompt st) /\
  prompt st' = "" /\
  length (sources st') = length (sources st) /\
  sseRef st' = None /\ statusLabel st' = Ready /\
  (forall i, ~ open_on GenerateStream i st').
Proof.
  intros st Hb Hj Ht st'.
  destruct (send_replied ok data job_id st Hb Hj) as (Hm & Hp & Hi & _).
  fold st' in Hm, Hp, Hi. split; [exact Hm|]. split; [exact Hp|].
  destruct (send_stream_ok (Replied ok (Some data)) acts Hb) as (_ & Hopen & Hc).
  fold st st' in Hopen, Hc.
  assert (Href : sseRef st' = None).
  { destruct (sseRef st') as [i|] eqn:E; [|reflexivity].
    assert (Hsome : is_Some (Some i)) by eauto.
    apply Hc in Hsome. rewrite Hi, Ht in Hsome. discriminate. }
  split.
  - subst st'. unfold send. rewrite (send_begin_posts st Hb).
    unfold send_resume. rewrite Hj. unfold render.
    destruct (same_value _ _); [reflexivity|].
    unfold jobId_effect. cbn [cleanup setPrompt setMessages setJobId fetch].
    destruct (cleanup st) as [e|];
      cbn [jobId set_sseRef close set_sources setPrompt setMessages setJobId
           fetch];
      rewrite Ht; cbn [negb]; [|reflexivity].
    cbn [sources set_cleanup set_sseRef close set_sources setPrompt setMessages
         setJobId fetch].
    apply length_alter.
  - split; [exact Href|]. split.
    + unfold statusLabel. rewrite Hi, Ht. reflexivity.
    + intros i Hopen'. apply Hopen in Hopen'. congruence.
Qed.

Lemma send_without_job_id_witness :
  ~ blank (prompt (run [Typed "What is RAG?"])) /\
  statusLabel (send (Replied true (Some (JObj {[ "detail" := JStr "busy" ]})))
                 (run [Typed "What is RAG?"])) = Ready.
Proof.
  assert (Hb : ~ blank (prompt (run [Typed "What is RAG?"]))).
  { intros H. inversion H as [|c l Hc Hl]; subst. discriminate Hc. }
  split; [exact Hb|].
  assert (Hj : js_get (JObj {[ "detail" := JStr "busy" ]}) "job_id"
               = Some JUndefined) by (vm_compute; reflexivity).
  destruct (send_without_job_id [Typed "What is RAG?"] true
              (JObj {[ "detail" := JStr "busy" ]}) JUndefined
              Hb Hj eq_refl) as (_ & _ & _ & _ & Hl & _).
  exact Hl.
Defined.

End SendProofs.

(** ** Frames and the conversation *)

Module FrameProofs.
Import Client Session ClientProofs SessionProofs.

Lemma keeps_refl (l : list Message) : keeps_messages l l.
Proof. intros i m H. exists m. repeat split; assumption. Qed.

Lemma keeps_trans (l1 l2 l3 : list Message) :
  keeps_messages l1 l2 -> keeps_messages l2 l3 -> keeps_messages l1 l3.
Proof.
  intros H12 H23 i m Hm.
  destruct (H12 i m Hm) as (m2 & Hm2 & Hr2 & Hk2).
  destruct (H23 i m2 Hm2) as (m3 & Hm3 & Hr3 & Hk3).
  exists m3. split; [exact Hm3|]. split; [congruence|].
  intros Hn. rewrite <- (Hk2 Hn). apply Hk3. rewrite (Hk2 Hn). exact Hn.
Qed.

Lemma keeps_updater (u : Message -> Message) (l : list Message) :
  (forall m, role (u m) = role m) ->
  keeps_messages l (default l (update_last_ai u l (length l))).
Proof.
  intros Hu. destruct (updater_frame u l)
    as [[_ ->] | (before & m & after & -> & Hm & _ & ->)]; [apply keeps_refl|].
  intros i x Hx.
  destruct (decide (i = length before)) as [->|Hne].
  - rewrite list_lookup_middle in Hx by reflexivity. injection Hx as <-.
    exists (u m). rewrite list_lookup_middle by reflexivity.
    split; [reflexivity|]. split; [apply Hu|]. congruence.
  - exists x. split; [|split; [reflexivity | reflexivity]].
    rewrite <- Hx. rewrite <- (insert_middle before after m (u m)).
    apply list_lookup_insert_ne. congruence.
Qed.

Lemma keeps_frame_updater (f : Frame) (l : list Message) :
  keeps_messages l (frame_updater f l).
Proof.
  unfold frame_updater. destruct (data f) as [| |p]; try apply keeps_refl.
  destruct (String.eqb (event f) "text");
    [apply (keeps_updater (add_chunk p)); reflexivity|].
  destruct (String.eqb (event f) "tool").
  { intros i m Hm. exists m. split; [|split; reflexivity].
    unfold tool_updater. now apply lookup_app_l_Some. }
  destruct (String.eqb (event f) "citation");
    [apply (keeps_updater (add_citation (JObj p))); reflexivity|].
  apply keeps_refl.
Qed.

Lemma on_done_messages (ev : nat) (d : FrameData) (st : State) :
  messages (on_done ev d st) = messages st.
Proof.
  unfold on_done, render. destruct (same_value _ _); [reflexivity|].
  unfold jobId_effect. cbn [cleanup jobId setJobId set_sseRef close set_sources].
  destruct (cleanup st); reflexivity.
Qed.

Lemma dispatch_messages (ev : nat) (f : Frame) (st : State) :
  messages (dispatch ev f st) = messages st \/
  messages (dispatch ev f st) = frame_updater f (messages st).
Proof.
  unfold dispatch. destruct (sources st !! ev) as [s|] eqn:Hs; [|now left].
  destruct (closed s) eqn:Hc; [now left|].
  destruct (channel s) eqn:Hch.
  - destruct (String.eqb_spec (event f) "done") as [He|He].
    + left. rewrite run_generate_listeners, He.
      change (String.eqb "done" "text") with false.
      change (String.eqb "done" "tool") with false.
      change (String.eqb "done" "citation") with false.
      change (String.eqb "done" "done") with true. cbv iota.
      apply on_done_messages.
    + right.
      assert (Hopen : open_on GenerateStream ev st)
        by (exists s; repeat split; assumption).
      pose proof (dispatch_generate ev f st Hopen He) as Hd.
      unfold dispatch in Hd. rewrite Hs, Hc, Hch in Hd. rewrite Hd. reflexivity.
  - left. rewrite run_upload_listeners.
    destruct (String.eqb (event f) "progress");
      [unfold on_progress; destruct (data f); reflexivity|].
    destruct (String.eqb (event f) "done");
      [unfold on_upload_done; destruct (data f); reflexivity|].
    destruct (String.eqb (event f) "error"); [|reflexivity].
    unfold on_upload_error. destruct (upload_error_message (data f)); reflexivity.
Qed.

(** X7. Whatever frames arrive on whatever source, every message of the
    conversation stays at its position with its role, and user and tool
    messages are never edited: streaming only rewrites AI messages in place
    and appends at the end. *)
Theorem frames_keep_conversation (ev : nat) (fs : list Frame) (st : State) :
  keeps_messages (messages st) (messages (deliver ev fs st)).
Proof.
  unfold deliver. revert st. induction fs as [|f fs IH]; intros st.
  - apply keeps_refl.
  - cbn [fold_left]. apply keeps_trans with (messages (dispatch ev f st)).
    + destruct (dispatch_messages ev f st) as [-> | ->];
        [apply keeps_refl | apply keeps_frame_updater].
    + apply IH.
Qed.

(** X8. A frame whose data is not valid JSON changes nothing, on either
    stream, except that a [done] frame of an open generation stream, whose
    listener never parses its data, still ends the stream. *)
Theorem unparsable_frame_ignored (ev : nat) (f : Frame) (st : State) :
  data f = Malformed ->
  (event f = "done" -> ~ open_on GenerateStream ev st) ->
  dispatch ev f st = st.
Proof.
  intros Hd Hdone. unfold dispatch.
  destruct (sources st !! ev) as [s|] eqn:Hs; [|reflexivity].
  destruct (closed s) eqn:Hc; [reflexivity|].
  destruct (channel s) eqn:Hch.
  - rewrite run_generate_listeners. unfold on_text, on_tool, on_citation.
    rewrite Hd.
    destruct (String.eqb (event f) "text"); [reflexivity|].
    destruct (String.eqb (event f) "tool"); [reflexivity|].
    destruct (String.eqb (event f) "citation"); [reflexivity|].
    destruct (String.eqb_spec (event f) "done") as [He|_]; [|reflexivity].
    exfalso. apply (Hdone He). exists s. repeat split; assumption.
  - rewrite run_upload_listeners.
    unfold on_progress, on_upload_done, on_upload_error. rewrite Hd.
    repeat (destruct (String.eqb _ _)); reflexivity.
Qed.

Lemma unparsable_frame_ignored_witness :
  data {| event := "text"; data := Malformed |} = Malformed /\
  dispatch 0 {| event := "text"; data := Malformed |}
    (asked "What is RAG?" "job-1")
  = asked "What is RAG?" "job-1".
Proof.
  split; [reflexivity|].
  apply (unparsable_frame_ignored 0 {| event := "text"; data := Malformed |}
           (asked "What is RAG?" "job-1") eq_refl).
  cbn. discriminate.
Defined.

(** X9. A text frame whose payload has no [chunk] field makes the answer
    grow by the word [undefined], and one whose [chunk] is [null] by the
    word [null]: the listener concatenates whatever the field holds. *)
Theorem missing_chunk_appends_undefined (ev : nat) (st : State) (m : Message)
    (t : string) (p : obj) :
  open_on GenerateStream ev st ->
  last_ai (messages st) = Some m ->
  text m = JStr t ->
  (p !! "chunk" = None ->
   text <$> last_ai (messages (dispatch ev (frame "text" p) st))
   = Some (JStr (t +:+ "undefined"))) /\
  (p !! "chunk" = Some JNull ->
   text <$> last_ai (messages (dispatch ev (frame "text" p) st))
   = Some (JStr (t +:+ "null"))).
Proof.
  intros Hopen Hm Ht.
  pose proof (text_frame_fragment ev st m t p Hopen Hm Ht) as H.
  unfold field in H. split; intros Hp; rewrite Hp in H; exact H.
Qed.

Lemma missing_chunk_appends_undefined_witness :
  open_on GenerateStream 0 (asked "What is RAG?" "job-1") /\
  text <$> last_ai (messages
    (dispatch 0 (frame "text" {[ "text" := JStr "Retrieval" ]})
       (asked "What is RAG?" "job-1")))
  = Some (JStr "undefined").
Proof.
  split; [exact asked_open|].
  assert (Hp : ({[ "text" := JStr "Retrieval" ]} : obj) !! "chunk" = None)
    by (vm_compute; reflexivity).
  exact (proj1 (missing_chunk_appends_undefined 0 (asked "What is RAG?" "job-1")
                  {| role := ai; text := JStr ""; citations := Some [] |} ""
                  {[ "text" := JStr "Retrieval" ]} asked_open eq_refl eq_refl)
               Hp).
Defined.

End FrameProofs.

(** ** Uploads *)

Module UploadProofs.
Import Client Session ClientProofs SessionProofs.

Lemma upload_reply_frame (r : FetchResult) (st : State) :
  let st' := (upload_reply r st).1 in
  requests st' = requests st /\ messages st' = messages st /\
  jobId st' = jobId st /\ uploadedFiles st' = uploadedFiles st /\
  uploading st' = uploading st /\ sseRef st' = sseRef st.
Proof.
  cbn zeta. unfold upload_reply.
  destruct r as [|[|] [data|]]; try (repeat split; reflexivity).
  destruct (js_get data "upload_id") as [id|]; [|repeat split; reflexivity].
  destruct (js_truthy id); [|repeat split; reflexivity].
  cbn [fst uploadSseRef setUploadProgress].
  destruct (uploadSseRef st); repeat split; reflexivity.
Qed.

Lemma upload_file_frame (file : string) (r : FetchResult) (st : State) :
  let st' := upload_file file r st in
  requests st' = requests st ++ [upload_request file] /\
  messages st' = messages st /\ jobId st' = jobId st /\
  uploadedFiles st' = uploadedFiles st /\ uploading st' = uploading st /\
  sseRef st' = sseRef st.
Proof.
  cbn zeta. unfold upload_file.
  pose proof (upload_reply_frame r (fetch (upload_request file) st)) as H.
  cbn zeta in H.
  destruct (upload_reply r (fetch (upload_request file) st)) as [st1 [id|]];
    cbn [fst] in H; destruct H as (H1 & H2 & H3 & H4 & H5 & H6).
  - unfold upload_listen, new_EventSource. cbv iota beta.
    cbn [requests messages jobId uploadedFiles uploading sseRef
         set_uploadSseRef set_sources].
    rewrite H1, H2, H3, H4, H5, H6. repeat split; reflexivity.
  - rewrite H1, H2, H3, H4, H5, H6. repeat split; reflexivity.
Qed.

Lemma upload_files_frame (files : list (string * FetchResult)) (st : State) :
  let st' := fold_left (fun acc fr => upload_file fr.1 fr.2 acc) files st in
  requests st' = requests st ++ map (fun fr => upload_request fr.1) files /\
  messages st' = messages st /\ jobId st' = jobId st /\
  uploadedFiles st' = uploadedFiles st /\ uploading st' = uploading st /\
  sseRef st' = sseRef st.
Proof.
  revert st. induction files as [|[file r] files IH]; intros st; cbn zeta.
  - cbn. rewrite app_nil_r. repeat split; reflexivity.
  - cbn [fold_left map fst snd].
    destruct (IH (upload_file file r st)) as (H1 & H2 & H3 & H4 & H5 & H6).
    destruct (upload_file_frame file r st) as (G1 & G2 & G3 & G4 & G5 & G6).
    cbn zeta in *. rewrite H1, H2, H3, H4, H5, H6, G1, G2, G3, G4, G5, G6.
    rewrite <- app_assoc. repeat split; reflexivity.
Qed.

(** X10. [handleFileUpload] posts every selected file to
    [/api/proxy/upload_pdf] exactly once, in selection order, whether or
    not earlier uploads failed; it ends with the uploading flag down and
    touches neither the conversation, the job id, nor the list of uploaded
    files (which only [done] frames extend). *)
Theorem every_file_posted_once (files : list (string * FetchResult))
    (st : State) :
  let st' := handleFileUpload files st in
  requests st' = requests st ++ map (fun fr => upload_request fr.1) files /\
  (files <> [] -> uploading st' = false) /\
  messages st' = messages st /\ jobId st' = jobId st /\
  uploadedFiles st' = uploadedFiles st.
Proof.
  cbn zeta. unfold handleFileUpload. destruct files as [|fr files].
  - cbn. rewrite app_nil_r. repeat split; try reflexivity. congruence.
  - destruct (upload_files_frame (fr :: files) (setUploading true st))
      as (H1 & H2 & H3 & H4 & _).
    cbn zeta in H1, H2, H3, H4.
    cbn [requests messages jobId uploadedFiles uploading setUploading].
    rewrite H1, H2, H3, H4. repeat split; reflexivity.
Qed.

(** X11. An upload whose request is rejected, or answered with a status
    that is not ok, a body that is not JSON, or JSON without a truthy
    [upload_id], opens no progress stream and leaves the upload ref alone:
    the page shows "Upload failed" at 0 and schedules the banner's removal
    after 3000 ms. *)
Theorem refused_upload_fails (file : string) (r : FetchResult) (st : State) :
  refused r ->
  let st' := upload_file file r st in
  sources st' = sources st /\ uploadSseRef st' = uploadSseRef st /\
  uploadProgress st'
  = Some {| step := JStr "Upload failed"; progress := JNum 0 |} /\
  timers st' = timers st ++ [ClearUploadProgress 3000].
Proof.
  intros Hr. cbn zeta. unfold upload_file.
  assert (H : forall s, upload_reply r s = (upload_failed s, None)).
  { intros s. unfold upload_reply.
    destruct Hr as [-> | [[json ->] | [[ok ->] | (ok & data & -> & Hd)]]];
      try reflexivity.
    - destruct ok; reflexivity.
    - destruct ok; [|reflexivity].
      destruct Hd as [-> | (id & -> & ->)]; reflexivity. }
  rewrite H. repeat split; reflexivity.
Qed.

Lemma refused_upload_fails_witness :
  refused (Replied true (Some (JObj {[ "detail" := JStr "not a PDF" ]}))) /\
  uploadProgress
    (upload_file "notes.txt"
       (Replied true (Some (JObj {[ "detail" := JStr "not a PDF" ]}))) initial)
  = Some {| step := JStr "Upload failed"; progress := JNum 0 |}.
Proof.
  assert (Hr : refused (Replied true (Some (JObj {[ "detail" := JStr "not a PDF" ]})))).
  { right. right. right. eexists _, _. split; [reflexivity|].
    right. exists JUndefined. split; vm_compute; reflexivity. }
  split; [exact Hr|].
  destruct (refused_upload_fails "notes.txt" _ initial Hr) as (_ & _ & Hp & _).
  exact Hp.
Defined.

(** X12. An upload answered with a truthy [upload_id] shows "Starting
    upload..." at 0, closes the progress stream the ref held, and opens a
    new EventSource on [/api/proxy/upload_progress/<upload_id>] that the ref
    then holds. *)
Theorem accepted_upload_listens (file : string) (ok_data upload_id : jsval)
    (st : State) :
  js_get ok_data "upload_id" = Some upload_id ->
  js_truthy upload_id = true ->
  let st' := upload_file file (Replied true (Some ok_data)) st in
  uploadSseRef st' = Some (length (sources st)) /\
  sources st' !! length (sources st)
  = Some {| url := "/api/proxy/upload_progress/" +:+ js_to_string upload_id;
            channel := UploadStream; closed := false |} /\
  uploadProgress st'
  = Some {| step := JStr "Starting upload..."; progress := JNum 0 |} /\
  (forall cur, uploadSseRef st = Some cur -> cur <> length (sources st) ->
     is_open cur st' = false).
Proof.
  intros Hj Ht. cbn zeta. unfold upload_file, upload_reply.
  rewrite Hj, Ht. cbn [uploadSseRef setUploadProgress fetch].
  destruct (uploadSseRef st) as [cur|] eqn:Hcur;
    unfold upload_listen, new_EventSource; cbv iota beta;
    cbn [uploadSseRef uploadProgress sources set_uploadSseRef set_sources close
         setUploadProgress fetch].
  - rewrite length_alter. split; [reflexivity|]. split.
    + rewrite <- (length_alter
                    (fun s => {| url := url s; channel := channel s; closed := true |})
                    (sources st) cur) at 1.
      apply list_lookup_middle. reflexivity.
    + split; [reflexivity|]. intros c [= <-] Hne. unfold is_open.
      cbn [sources set_uploadSseRef set_sources close setUploadProgress fetch].
      destruct (decide (cur < length (sources st))%nat) as [Hlt|Hge].
      * rewrite lookup_app_l by (rewrite length_alter; exact Hlt).
        rewrite list_lookup_alter_eq. destruct (sources st !! cur); reflexivity.
      * rewrite lookup_ge_None_2; [reflexivity|].
        rewrite length_app, length_alter. cbn. lia.
  - split; [reflexivity|]. split; [apply list_lookup_middle; reflexivity|].
    split; [reflexivity | discriminate].
Qed.

Lemma accepted_upload_listens_witness :
  js_truthy (JStr "up-1") = true /\
  sources (upload_file "paper.pdf"
             (Replied true (Some (JObj {[ "upload_id" := JStr "up-1" ]})))
             initial) !! 0%nat
  = Some {| url := "/api/proxy/upload_progress/up-1"; channel := UploadStream;
            closed := false |}.
Proof.
  split; [reflexivity|].
  assert (Hj : js_get (JObj {[ "upload_id" := JStr "up-1" ]}) "upload_id"
               = Some (JStr "up-1")) by (vm_compute; reflexivity).
  destruct (accepted_upload_listens "paper.pdf"
              (JObj {[ "upload_id" := JStr "up-1" ]}) (JStr "up-1") initial
              Hj eq_refl) as (_ & Hs & _).
  exact Hs.
Defined.













(** X14. The timer of a [done] frame clears the upload ref and the progress
    banner without looking at which stream the ref holds.  When it fires
    for an older stream while a newer one is current, the ref is emptied
    and the banner removed although the newer stream stays open; the next
    accepted upload then finds no ref to close and leaves two
    upload-progress streams open. *)
Theorem stale_timer_loses_stream (st : State) (i : nat) (ms : Z) (ev cur : nat) :
  timers st !! i = Some (FinishUpload ms ev) ->
  uploadSseRef st = Some cur ->
  cur <> ev ->
  open_on UploadStream cur st ->
  let st1 := fire_timer i st in
  uploadSseRef st1 = None /\ uploadProgress st1 = None /\
  open_on UploadStream cur st1 /\
  forall file data upload_id,
    js_get data "upload_id" = Some upload_id -> js_truthy upload_id = true ->
    let st2 := upload_file file (Replied true (Some data)) st1 in
    open_on UploadStream cur st2 /\
    open_on UploadStream (length (sources st)) st2 /\
    cur <> length (sources st).
Proof.
  intros Hi Hcur Hne Hopen st1.
  assert (H1 : open_on UploadStream cur st1).
  { subst st1. unfold fire_timer. rewrite Hi. cbn [run_timer].
    match goal with |- open_on _ _ (set_uploadSseRef None (close ev ?x)) =>
      change (open_on UploadStream cur (close ev x)) end.
    apply open_on_close. split; [congruence | exact Hopen]. }
  assert (Hlen : length (sources st1) = length (sources st)).
  { subst st1. unfold fire_timer. rewrite Hi. cbn [run_timer].
    cbn [sources set_uploadSseRef close set_sources setUploadProgress].
    apply length_alter. }
  assert (Hr1 : uploadSseRef st1 = None /\ uploadProgress st1 = None).
  { subst st1. unfold fire_timer. rewrite Hi. split; reflexivity. }
  destruct Hr1 as [Hr1 Hp1]. repeat (split; [assumption|]).
  intros file data upload_id Hj Ht st2.
  assert (Hlt : (cur < length (sources st))%nat).
  { destruct Hopen as (s & Hs & _). now apply lookup_lt_Some in Hs. }
  subst st2. unfold upload_file, upload_reply. rewrite Hj, Ht.
  cbn [uploadSseRef setUploadProgress fetch]. rewrite Hr1.
  unfold upload_listen, new_EventSource. cbv iota beta.
  set (u := "/api/proxy/upload_progress/" +:+ js_to_string upload_id).
  set (st0 := setUploadProgress
                (Some {| step := JStr "Starting upload..."; progress := JNum 0 |})
                (fetch (upload_request file) st1)).
  split; [|split; [|lia]].
  - change (open_on UploadStream cur (new_EventSource u UploadStream st0).2).
    apply open_on_new. left. exact H1.
  - change (open_on UploadStream (length (sources st))
              (new_EventSource u UploadStream st0).2).
    apply open_on_new. right. split; [|reflexivity].
    subst st0. cbn [sources setUploadProgress fetch]. symmetry. exact Hlen.
Qed.

Lemma stale_timer_loses_stream_witness :
  timers (run two_uploads) !! 0%nat = Some (FinishUpload 1500 0) /\
  uploadSseRef (run two_uploads) = Some 1%nat /\
  open_on UploadStream 1 (run two_uploads) /\
  uploadSseRef (fire_timer 0 (run two_uploads)) = None /\
  open_on UploadStream 1 (fire_timer 0 (run two_uploads)).
Proof.
  assert (Hopen : open_on UploadStream 1 (run two_uploads))
    by (eexists; repeat split; vm_compute; reflexivity).
  assert (Ht : timers (run two_uploads) !! 0%nat = Some (FinishUpload 1500 0))
    by (vm_compute; reflexivity).
  assert (Hr : uploadSseRef (run two_uploads) = Some 1%nat)
    by (vm_compute; reflexivity).
  split; [exact Ht|]. split; [exact Hr|]. split; [exact Hopen|].
  destruct (stale_timer_loses_stream (run two_uploads) 0 1500 0 1 Ht Hr
              ltac:(discriminate) Hopen) as (H1 & _ & H2 & _).
  split; [exact H1 | exact H2].
Defined.

Lemma upload_reply_accepted (r : FetchResult) (id : jsval) (st : State) :
  accepted r = Some id ->
  length (sources (upload_reply r st).1) = length (sources st) /\
  timers (upload_reply r st).1 = timers st.
Proof.
  unfold upload_reply, accepted.
  destruct r as [|[|] [data|]]; try discriminate.
  destruct (js_get data "upload_id") as [uid|]; [|discriminate].
  destruct (js_truthy uid); [|discriminate]. intros _.
  cbn [fst uploadSseRef setUploadProgress].
  destruct (uploadSseRef st) as [cur|]; [|split; reflexivity].
  split; [|reflexivity].
  cbn [sources close set_sources setUploadProgress]. apply length_alter.
Qed.

(** X22. The file input stays enabled during an upload, so a second call of
    [handleFileUpload] can get its reply while the first is in its pause.
    Each call then closes what the ref held before the pause and opens its
    own stream after it: both streams are open, the ref holds the second
    only, and no timer is pending that would close the first. *)
Theorem overlapping_uploads_open_two_streams (r1 r2 : FetchResult)
    (id1 id2 : jsval) (st : State) :
  accepted r1 = Some id1 -> accepted r2 = Some id2 ->
  let st' := fold_left perform
               [UploadReplied r1; UploadReplied r2;
                UploadListening id1; UploadListening id2] st in
  let n := length (sources st) in
  sources st' !! n
  = Some {| url := "/api/proxy/upload_progress/" +:+ js_to_string id1;
            channel := UploadStream; closed := false |} /\
  sources st' !! S n
  = Some {| url := "/api/proxy/upload_progress/" +:+ js_to_string id2;
            channel := UploadStream; closed := false |} /\
  uploadSseRef st' = Some (S n) /\ timers st' = timers st.
Proof.
  intros H1 H2. cbn zeta. cbn [fold_left perform].
  destruct (upload_reply_accepted r1 id1 st H1) as [Hl1 Ht1].
  set (s1 := (upload_reply r1 st).1) in *.
  destruct (upload_reply_accepted r2 id2 s1 H2) as [Hl2 Ht2].
  set (s2 := (upload_reply r2 s1).1) in *.
  assert (Hlen : length (sources s2) = length (sources st)) by congruence.
  assert (Htm : timers s2 = timers st) by congruence.
  clearbody s2. clear - Hlen Htm.
  unfold upload_listen, new_EventSource. cbv iota beta.
  cbn [sources uploadSseRef timers set_uploadSseRef set_sources].
  rewrite <- Hlen, length_app, Nat.add_comm. cbn [length Nat.add].
  repeat split.
  - rewrite lookup_app_l by (rewrite length_app; cbn; lia).
    apply list_lookup_middle. reflexivity.
  - replace (S (length (sources s2)))
      with (length (sources s2 ++ [{| url := "/api/proxy/upload_progress/"
                                            +:+ js_to_string id1;
                                     channel := UploadStream;
                                     closed := false |}]))
      by (rewrite length_app; cbn; lia).
    apply list_lookup_middle. reflexivity.
  - exact Htm.
Qed.

Lemma overlapping_uploads_open_two_streams_witness :
  accepted (Replied true (Some (JObj {[ "upload_id" := JStr "up-1" ]})))
  = Some (JStr "up-1") /\
  accepted (Replied true (Some (JObj {[ "upload_id" := JStr "up-2" ]})))
  = Some (JStr "up-2") /\
  uploadSseRef
    (run [UploadStarted; UploadPosted "a.pdf"; UploadStarted;
          UploadPosted "b.pdf";
          UploadReplied (Replied true (Some (JObj {[ "upload_id" := JStr "up-1" ]})));
          UploadReplied (Replied true (Some (JObj {[ "upload_id" := JStr "up-2" ]})));
          UploadListening (JStr "up-1"); UploadListening (JStr "up-2")])
  = Some 1%nat.
Proof.
  assert (H1 : accepted (Replied true (Some (JObj {[ "upload_id" := JStr "up-1" ]})))
               = Some (JStr "up-1")) by (vm_compute; reflexivity).
  assert (H2 : accepted (Replied true (Some (JObj {[ "upload_id" := JStr "up-2" ]})))
               = Some (JStr "up-2")) by (vm_compute; reflexivity).
  split; [exact H1|]. split; [exact H2|].
  exact (proj1 (proj2 (proj2
    (overlapping_uploads_open_two_streams _ _ _ _
       (run [UploadStarted; UploadPosted "a.pdf"; UploadStarted;
             UploadPosted "b.pdf"]) H1 H2)))).
Defined.

(** X15. After the [done] frame of an upload, once its timer has fired,
    the banner is gone, the stream is closed and the ref empty, and the
    file stays in the list of uploaded files. *)
Theorem upload_done_then_timer (ev : nat) (p : obj) (st : State) :
  open_on UploadStream ev st ->
  let st1 := dispatch ev (frame "done" p) st in
  let st2 := fire_timer (length (timers st)) st1 in
  timers st1 = timers st ++ [FinishUpload 1500 ev] /\
  uploadProgress st2 = None /\ is_open ev st2 = false /\
  uploadSseRef st2 = None /\
  uploadedFiles st2 = uploadedFiles st ++ [field p "filename"] /\
  timers st2 = timers st.
Proof.
  intros Hopen st1 st2. subst st2 st1.
  rewrite (dispatch_open _ _ _ _ Hopen), run_upload_listeners. cbn [event frame].
  change (String.eqb "done" "progress") with false.
  change (String.eqb "done" "done") with true. cbv iota.
  unfold on_upload_done. cbn [data frame]. split; [reflexivity|].
  unfold fire_timer.
  cbn [timers setTimeout setUploadedFiles setUploadProgress].
  rewrite list_lookup_middle by reflexivity. cbn [run_timer].
  split; [reflexivity|]. split; [apply close_closes|]. split; [reflexivity|].
  split; [reflexivity|].
  cbn [timers set_uploadSseRef close set_sources setUploadProgress].
  rewrite (delete_middle (timers st) [] (FinishUpload 1500 ev)).
  apply app_nil_r.
Qed.

Lemma upload_done_then_timer_witness :
  open_on UploadStream 0 (uploading_state "paper.pdf" "up-1") /\
  uploadedFiles
    (fire_timer 0
       (dispatch 0 (frame "done" {[ "filename" := JStr "paper.pdf" ]})
          (uploading_state "paper.pdf" "up-1")))
  = [JStr "paper.pdf"] /\
  is_open 0
    (fire_timer 0
       (dispatch 0 (frame "done" {[ "filename" := JStr "paper.pdf" ]})
          (uploading_state "paper.pdf" "up-1"))) = false.
Proof.
  split; [exact uploading_open|].
  destruct (upload_done_then_timer 0 {[ "filename" := JStr "paper.pdf" ]}
              (uploading_state "paper.pdf" "up-1") uploading_open)
    as (_ & _ & Hc & _ & Hf & _).
  split; [exact Hf | exact Hc].
Defined.

(** X16. An [error] frame on an open upload-progress stream closes the
    stream and empties the ref, shows "Error: " followed by the payload's
    message (or "Connection lost" when the frame has no data) at 0, and
    schedules the banner's removal after 3000 ms. *)
Theorem upload_error_reported (ev : nat) (d : FrameData) (st : State) :
  open_on UploadStream ev st ->
  d <> Malformed ->
  let st' := dispatch ev {| event := "error"; data := d |} st in
  is_open ev st' = false /\ uploadSseRef st' = None /\
  timers st' = timers st ++ [ClearUploadProgress 3000] /\
  (d = NoData ->
   uploadProgress st'
   = Some {| step := JStr "Error: Connection lost"; progress := JNum 0 |}) /\
  (forall p, d = Payload p ->
   uploadProgress st'
   = Some {| step := JStr ("Error: " +:+ js_to_string (field p "message"));
             progress := JNum 0 |}).
Proof.
  intros Hopen Hd st'. subst st'.
  rewrite (dispatch_open _ _ _ _ Hopen), run_upload_listeners. cbn [event].
  change (String.eqb "error" "progress") with false.
  change (String.eqb "error" "done") with false.
  change (String.eqb "error" "error") with true. cbv iota.
  unfold on_upload_error.
  destruct d as [| |p]; [|contradiction|]; cbn [upload_error_message];
    (split; [apply close_closes|]); (split; [reflexivity|]);
    (split; [reflexivity|]); split; try discriminate; try reflexivity.
  intros q [= <-]. reflexivity.
Qed.

Lemma upload_error_reported_witness :
  open_on UploadStream 0 (uploading_state "paper.pdf" "up-1") /\
  uploadProgress
    (dispatch 0 {| event := "error"; data := NoData |}
       (uploading_state "paper.pdf" "up-1"))
  = Some {| step := JStr "Error: Connection lost"; progress := JNum 0 |}.
Proof.
  split; [exact uploading_open|].
  destruct (upload_error_reported 0 NoData (uploading_state "paper.pdf" "up-1")
              uploading_open ltac:(discriminate)) as (_ & _ & _ & H & _).
  exact (H eq_refl).
Defined.

End UploadProofs.

(** ** More about the proxy *)

Module RelayProofs.
Import Proxy Relay ProxyProofs.

Lemma split_no_sep (sep : ascii) (s : string) :
  no_char sep s -> split sep s = [s].
Proof.
  unfold no_char. induction s as [|c s IH]; intros H; [reflexivity|].
  cbn in H. inversion H as [|x l Hc Hs]; subst. cbn [split].
  destruct (Ascii.eqb_spec c sep) as [->|_]; [congruence|].
  rewrite (IH Hs). reflexivity.
Qed.

Lemma split_at_sep (sep : ascii) (a b : string) :
  no_char sep a -> split sep (a +:+ String sep b) = a :: split sep b.
Proof.
  unfold no_char. induction a as [|c a IH]; intros H.
  - change ("" +:+ String sep b) with (String sep b). cbn [split].
    rewrite Ascii.eqb_refl. reflexivity.
  - cbn in H. inversion H as [|x l Hc Hs]; subst.
    change (String c a +:+ String sep b) with (String c (a +:+ String sep b)).
    cbn [split]. destruct (Ascii.eqb_spec c sep) as [->|_]; [congruence|].
    rewrite (IH Hs). reflexivity.
Qed.

(** X17. The proxy forwards the query string of the incoming URL: with a
    URL [prefix?q] the backend URL is [BACKEND/path?q], and with no [?] or
    an empty query it is [BACKEND/path].  Only the text between the first
    and the second [?] is kept: whatever follows a second [?] is dropped. *)
Theorem query_string_forwarded (env : option string) (req : ApiRequest)
    (prefix q tail : string) :
  no_char "?" prefix -> no_char "?" q ->
  tail = "" \/ (exists rest, tail = String "?" rest) ->
  (req_url req = Some (prefix +:+ String "?" q +:+ tail) -> q <> "" ->
   target env req
   = BACKEND env +:+ "/" +:+ pathStr (req_path req) +:+ "?" +:+ q) /\
  (req_url req = Some prefix \/ req_url req = Some (prefix +:+ "?" +:+ tail)
   \/ req_url req = None ->
   target env req = BACKEND env +:+ "/" +:+ pathStr (req_path req) +:+ "").
Proof.
  intros Hp Hq Htail.
  assert (Hsplit : forall x, no_char "?" x ->
            split "?" (x +:+ tail) !! 0%nat = Some x).
  { intros x Hx. destruct Htail as [-> | [rest ->]].
    - rewrite ClientProofs.append_empty_r, (split_no_sep _ _ Hx). reflexivity.
    - rewrite (split_at_sep _ _ _ Hx). reflexivity. }
  split.
  - intros Hurl Hne. unfold target, queryString. rewrite Hurl.
    change (prefix +:+ String "?" q +:+ tail)
      with (prefix +:+ String "?" (q +:+ tail)).
    rewrite (split_at_sep _ _ _ Hp).
    change ((prefix :: split "?" (q +:+ tail)) !! 1%nat)
      with (split "?" (q +:+ tail) !! 0%nat).
    rewrite (Hsplit q Hq). cbn [default from_option id].
    apply String.eqb_neq in Hne. rewrite Hne. reflexivity.
  - intros [Hurl | [Hurl | Hurl]]; unfold target, queryString; rewrite Hurl.
    + rewrite (split_no_sep _ _ Hp). reflexivity.
    + change (prefix +:+ "?" +:+ tail) with (prefix +:+ String "?" ("" +:+ tail)).
      rewrite (split_at_sep _ _ _ Hp).
      change ((prefix :: split "?" ("" +:+ tail)) !! 1%nat)
        with (split "?" ("" +:+ tail) !! 0%nat).
      rewrite (Hsplit "" (Forall_nil_2 _)). reflexivity.
    + reflexivity.
Qed.

Lemma query_string_forwarded_witness :
  no_char "?" "/api/proxy/pdf_search/doc-1" /\
  target None
    {| req_method := "GET";
       req_url := Some "/api/proxy/pdf_search/doc-1?q=rag?";
       req_path := QMany ["pdf_search"; "doc-1"];
       req_headers := []; req_body := [] |}
  = "http://localhost:8000/pdf_search/doc-1?q=rag".
Proof.
  assert (Hp : no_char "?" "/api/proxy/pdf_search/doc-1")
    by (repeat constructor; discriminate).
  assert (Hq : no_char "?" "q=rag") by (repeat constructor; discriminate).
  split; [exact Hp|].
  refine (proj1 (query_string_forwarded None
            {| req_method := "GET";
               req_url := Some "/api/proxy/pdf_search/doc-1?q=rag?";
               req_path := QMany ["pdf_search"; "doc-1"];
               req_headers := []; req_body := [] |}
            "/api/proxy/pdf_search/doc-1" "q=rag" "?" Hp Hq _) eq_refl _).
  - right. exists "". reflexivity.
  - discriminate.
Defined.

Lemma copy_headers_In (entries : list (string * HeaderValue)) (k v : string) :
  In (k, v) (copy_headers entries) <->
  k <> "host" /\
  ((In (k, HOne v) entries /\ v <> "") \/
   exists vs, In (k, HMany vs) entries /\ In v vs).
Proof.
  induction entries as [|[key value] entries IH].
  - cbn. split; [tauto|]. intros [_ [[[] _] | (vs & [] & _)]].
  - cbn [copy_headers].
    assert (Hrest : k <> "host" /\
              ((In (k, HOne v) entries /\ v <> "") \/
               exists vs, In (k, HMany vs) entries /\ In v vs) ->
              k <> "host" /\
              ((In (k, HOne v) ((key, value) :: entries) /\ v <> "") \/
               exists vs, In (k, HMany vs) ((key, value) :: entries) /\ In v vs)).
    { intros [Hk [[Hin Hv] | (vs & Hin & Hv)]]; (split; [exact Hk|]).
      - left. split; [right; exact Hin | exact Hv].
      - right. exists vs. split; [right; exact Hin | exact Hv]. }
    assert (Hback : (key = "host" \/ value = HMissing \/ value = HOne "") ->
              k <> "host" /\
              ((In (k, HOne v) ((key, value) :: entries) /\ v <> "") \/
               exists vs, In (k, HMany vs) ((key, value) :: entries) /\ In v vs) ->
              k <> "host" /\
              ((In (k, HOne v) entries /\ v <> "") \/
               exists vs, In (k, HMany vs) entries /\ In v vs)).
    { intros Hskip [Hk [[[Heq | Hin] Hv] | (vs & [Heq | Hin] & Hv)]].
      - exfalso. injection Heq as Hkey Hval. subst key value.
        destruct Hskip as [H | [H | H]]; [congruence | discriminate | congruence].
      - split; [exact Hk|]. left. split; assumption.
      - exfalso. injection Heq as Hkey Hval. subst key value.
        destruct Hskip as [H | [H | H]]; [congruence | discriminate | discriminate].
      - split; [exact Hk|]. right. exists vs. split; assumption. }
    destruct (String.eqb_spec key "host") as [Hkey|Hkey].
    { rewrite IH. split; [exact Hrest | apply Hback; now left]. }
    destruct value as [|x|xs].
    + rewrite IH. split; [exact Hrest | apply Hback; right; now left].
    + destruct (String.eqb_spec x "") as [->|Hx].
      { rewrite IH. split; [exact Hrest | apply Hback; right; now right]. }
      cbn [In]. rewrite IH. split.
      * intros [Heq | H]; [|exact (Hrest H)].
        injection Heq as <- <-.
        split; [exact Hkey|]. left. split; [left; reflexivity | exact Hx].
      * intros [Hk [[[Heq | Hin] Hv] | (vs & [Heq | Hin] & Hv)]].
        -- left. injection Heq as <- <-. reflexivity.
        -- right. split; [exact Hk|]. left. split; assumption.
        -- discriminate Heq.
        -- right. split; [exact Hk|]. right. exists vs. split; assumption.
    + rewrite in_app_iff, in_map_iff, IH. split.
      * intros [(y & Heq & Hy) | H]; [|exact (Hrest H)].
        injection Heq as <- <-.
        split; [exact Hkey|]. right. exists xs. split; [left; reflexivity | exact Hy].
      * intros [Hk [[[Heq | Hin] Hv] | (vs & [Heq | Hin] & Hv)]].
        -- discriminate Heq.
        -- right. split; [exact Hk|]. left. split; assumption.
        -- left. injection Heq as <- <-. exists v. split; [reflexivity | exact Hv].
        -- right. split; [exact Hk|]. right. exists vs. split; assumption.
Qed.

(** X19. The request the proxy hands to [fetch] carries exactly these
    headers of the incoming request: every value of an array-valued header
    and every non-empty single value, except under the name [host], which
    is never forwarded; a header that is [undefined] or the empty string is
    dropped.  The method is passed on, and the body is left out exactly for
    GET and HEAD. *)
Theorem forwarded_request (env : option string) (req : ApiRequest) :
  (forall k v,
     In (k, v) (out_headers (options env req)) <->
     k <> "host" /\
     ((In (k, HOne v) (req_headers req) /\ v <> "") \/
      exists vs, In (k, HMany vs) (req_headers req) /\ In v vs)) /\
  out_method (options env req) = req_method req /\
  (out_body (options env req) = None <->
   req_method req = "GET" \/ req_method req = "HEAD") /\
  (out_body (options env req) <> None ->
   out_body (options env req) = Some (req_body req)).
Proof.
  split; [intros k v; apply copy_headers_In|]. split; [reflexivity|].
  cbn [out_body options].
  destruct (String.eqb_spec (req_method req) "GET") as [Hg|Hg];
    destruct (String.eqb_spec (req_method req) "HEAD") as [Hh|Hh];
    cbn [orb]; split; try tauto; try congruence;
    split; try discriminate; intros [H | H]; congruence.
Qed.

Lemma pipe_failing (chunks : list (list byte)) (res : ServerResponse) :
  exists res',
    pipe (failing_after chunks) res = (res', false) /\
    statusCode res' = statusCode res /\
    written res' = written res ++ map Bytes chunks /\
    finished res' = finished res /\
    headersSent res' = match chunks with [] => headersSent res | _ => true end.
Proof.
  revert res. induction chunks as [|c chunks IH]; intros res.
  - exists res. cbn. rewrite app_nil_r. repeat split.
  - destruct (IH (res_write (Bytes c) res)) as (res' & Hp & H1 & H2 & H3 & H4).
    exists res'. cbn [failing_after fold_right pipe]. fold (failing_after chunks).
    rewrite Hp, H1, H2, H3, H4. cbn. rewrite <- app_assoc.
    repeat split. destruct chunks; reflexivity.
Qed.

(** X20. When reading the backend's body fails before the first chunk, the
    client gets status 500 and [{"error": "Proxy error"}], like after a
    failed fetch.  When it fails after at least one chunk was written, the
    handler can no longer report it: the client keeps the backend's status
    and the chunks written so far, and the response is never ended. *)
Theorem read_failure (env : option string) (backend : Outgoing -> FetchOutcome)
    (req : ApiRequest) (res : ServerResponse) (response : Response)
    (chunks : list (list byte)) :
  headersSent res = false ->
  backend (options env req) = Responds response ->
  body response = Some (failing_after chunks) ->
  let res' := handler env backend req res in
  (chunks = [] ->
   statusCode res' = 500 /\ written res' = written res ++ [Json proxy_error] /\
   finished res' = true) /\
  (chunks <> [] ->
   statusCode res' = status response /\
   written res' = written res ++ map Bytes chunks /\
   finished res' = finished res).
Proof.
  intros Hsent Hb Hbody. cbn zeta. unfold handler. rewrite Hb, Hbody.
  set (r1 := fold_left forward_header (headers response)
               (res_status (status response) res)).
  destruct (forward_headers_fields (headers response)
              (res_status (status response) res)) as (F1 & F2 & F3 & F4).
  fold r1 in F1, F2, F3, F4. cbn in F1, F2, F3, F4.
  destruct (pipe_failing chunks r1) as (r2 & Hp & P1 & P2 & P3 & P4).
  rewrite Hp. unfold on_error. rewrite P4. split.
  - intros ->. rewrite F2, Hsent. cbn. rewrite P2, F3, app_nil_r.
    repeat split; reflexivity.
  - intros Hne. destruct chunks as [|c chunks]; [congruence|].
    rewrite P1, P2, P3, F1, F3, F4. repeat split; reflexivity.
Qed.

Lemma read_failure_witness :
  headersSent fresh = false /\
  finished
    (handler None
       (fun _ => Responds {| status := 200; headers := [];
                             body := Some (failing_after [[x65]]) |})
       get_stream fresh) = false /\
  written
    (handler None
       (fun _ => Responds {| status := 200; headers := [];
                             body := Some (failing_after [[x65]]) |})
       get_stream fresh) = [Bytes [x65]].
Proof.
  split; [reflexivity|].
  destruct (read_failure None
              (fun _ => Responds {| status := 200; headers := [];
                                    body := Some (failing_after [[x65]]) |})
              get_stream fresh
              {| status := 200; headers := [];
                 body := Some (failing_after [[x65]]) |}
              [[x65]] eq_refl eq_refl eq_refl) as [_ H].
  destruct (H ltac:(discriminate)) as (_ & Hw & Hf).
  split; [exact Hf | exact Hw].
Defined.

End RelayProofs.
